(** * Hand gesture recognition: classifier and per-frame dispatcher

    A shallow embedding of [hand_gesture_gui.py]: the gesture classifier
    [GestureDetector.classify], the cooldown gate [GestureApp._throttle],
    the shortcut dispatcher [GestureApp._perform_keyboard_shortcut] and the
    body of the frame loop [GestureApp._loop].

    Conventions of the embedding.
    - Python floats are read as exact rationals ([Q]); comparisons and the
      arithmetic of the source are kept expression by expression.  [int(..)]
      is truncation toward zero.
    - [math.hypot] and [time.time] are library calls: they are parameters
      of the development ([math_hypot], [time_time]), and nothing is assumed
      about either.  The n-th call of [time.time()] returns [time_time n].
    - Exceptions are values ([outcome]); the mutable attributes of the
      [GestureApp] object are a record threaded through a state monad.
    - The calls into pyautogui and the volume controller are recorded, in
      order, as the [emission]s of the run. *)

From Stdlib Require Import QArith Qabs Qpower ZArith Lia Lqa.
From stdpp Require Import gmap strings list fin_maps.

Open Scope Q_scope.

(** ** Configuration (the constants at the top of the module) *)

Definition PINCH_THRESHOLD : Q := 0.04.
Definition DIST_OK_THRESHOLD : Q := 0.035.
Definition SMOOTHING : Q := 0.25.
Definition SCROLL_SENSITIVITY : Q := 900.
Definition SCROLL_MIN_DELTA : Q := 0.004.
Definition COOLDOWN_SHORT : Q := 0.35.
Definition COOLDOWN_MED : Q := 0.9.
Definition COOLDOWN_SCROLL : Q := 0.06.

(** ** Numbers *)

(** [a < b] on floats, as a boolean. *)
Definition Qltb (a b : Q) : bool := negb (Qle_bool b a).

(** [a >= b] on floats, as a boolean. *)
Definition Qgeb (a b : Q) : bool := Qle_bool b a.

(** Python's [int(q)]: the integer part, rounding toward zero. *)
Definition int (q : Q) : Z := Z.quot (Qnum q) (Zpos (Qden q)).

(** Python's [round(q)] with one argument: the nearest integer, ties going
    to the even neighbour.  The source never calls it on the scroll path;
    it is here to compare against. *)
Definition round (q : Q) : Z :=
  let n := Qnum q in
  let d := Zpos (Qden q) in
  let fl := Z.div n d in
  let r2 := (2 * (n - fl * d))%Z in
  if (r2 <? d)%Z then fl
  else if (d <? r2)%Z then (fl + 1)%Z
  else if Z.even fl then fl else (fl + 1)%Z.

(** ** Landmarks and gesture labels *)

(** A MediaPipe landmark; only the two image coordinates are read. *)
Record landmark : Type := Landmark { x : Q; y : Q }.

(** The values taken by [gesture_text]: the eight strings returned by
    [classify] and the loop's own ["No hand"]. *)
Inductive gesture : Type :=
  | OPEN_PALM | OK_SIGN | PEACE | ROCK | L_SIGN | THUMBS_UP | FIST | UNKNOWN
  | No_hand.

Definition gesture_text (g : gesture) : string :=
  match g with
  | OPEN_PALM => "OPEN_PALM"
  | OK_SIGN => "OK_SIGN"
  | PEACE => "PEACE"
  | ROCK => "ROCK"
  | L_SIGN => "L_SIGN"
  | THUMBS_UP => "THUMBS_UP"
  | FIST => "FIST"
  | UNKNOWN => "UNKNOWN"
  | No_hand => "No hand"
  end.

Definition gesture_eqb (g h : gesture) : bool :=
  match g, h with
  | OPEN_PALM, OPEN_PALM | OK_SIGN, OK_SIGN | PEACE, PEACE | ROCK, ROCK
  | L_SIGN, L_SIGN | THUMBS_UP, THUMBS_UP | FIST, FIST | UNKNOWN, UNKNOWN
  | No_hand, No_hand => true
  | _, _ => false
  end.

(** ** Exceptions *)

Inductive exn : Type :=
  | IndexError   (* a list index out of range *)
  | TypeError.   (* arithmetic on [None] *)

Inductive outcome (A : Type) : Type :=
  | Ok (a : A)
  | Raise (e : exn).
Arguments Ok {A} a.
Arguments Raise {A} e.

Definition obind {A B : Type} (o : outcome A) (k : A -> outcome B) : outcome B :=
  match o with
  | Ok a => k a
  | Raise e => Raise e
  end.

Notation "'let?' p ':=' o 'in' k" :=
  (obind o (fun p => k))
  (at level 10, p name, o at level 100, k at level 200).

(** [lm[i]] for a non-negative literal [i]. *)
Definition getitem {A : Type} (lm : list A) (i : nat) : outcome A :=
  match lm !! i with
  | Some a => Ok a
  | None => Raise IndexError
  end.

(** [sum] of a list of booleans ([True] counts 1). *)
Definition sum (bs : list bool) : Z :=
  foldr (fun b acc => (Z.b2z b + acc)%Z) 0%Z bs.

(** ** The gesture detector *)

Section Detector.

(** [math.hypot]. *)
Variable math_hypot : Q -> Q -> Q.

Definition finger_up (tip pip : landmark) : bool := Qltb (y tip) (y pip).

Definition euclidean (p1 p2 : landmark) : Q :=
  math_hypot (x p1 - x p2) (y p1 - y p2).

Definition classify (lm : list landmark) : outcome gesture :=
  let? thumb_tip := getitem lm 4 in
  let? thumb_ip := getitem lm 3 in
  let? index_tip := getitem lm 8 in
  let? index_pip := getitem lm 6 in
  let? middle_tip := getitem lm 12 in
  let? middle_pip := getitem lm 10 in
  let? ring_tip := getitem lm 16 in
  let? ring_pip := getitem lm 14 in
  let? pinky_tip := getitem lm 20 in
  let? pinky_pip := getitem lm 18 in
  let thumb_up := Qltb (x thumb_tip) (x thumb_ip) in
  let index_up := finger_up index_tip index_pip in
  let middle_up := finger_up middle_tip middle_pip in
  let ring_up := finger_up ring_tip ring_pip in
  let pinky_up := finger_up pinky_tip pinky_pip in
  let fingers_up_count := sum [index_up; middle_up; ring_up; pinky_up] in
  let dist_thumb_index := euclidean thumb_tip index_tip in
  if (fingers_up_count =? 4)%Z && thumb_up then Ok OPEN_PALM
  else if Qltb dist_thumb_index DIST_OK_THRESHOLD then Ok OK_SIGN
  else if index_up && middle_up && negb ring_up && negb pinky_up then Ok PEACE
  else if index_up && negb middle_up && negb ring_up && pinky_up then Ok ROCK
  else if thumb_up && index_up && negb middle_up && negb ring_up && negb pinky_up
       then Ok L_SIGN
  else if thumb_up && negb index_up && negb middle_up && negb ring_up && negb pinky_up
       then Ok THUMBS_UP
  else if (fingers_up_count =? 0)%Z && negb thumb_up then Ok FIST
  else Ok UNKNOWN.

End Detector.

(** ** The application object and the world it runs in *)

(** The runtime attributes of [GestureApp] set in [__init__] (the widgets,
    the detector and the camera handle carry no decision state). *)
Record GestureApp : Type := mkApp {
  prev_mouse_x : option Z;
  prev_mouse_y : option Z;
  screen_w : Z;
  screen_h : Z;
  last_times : gmap string Q;
  scroll_mode : bool;
  last_index_y : option Q
}.

(** [GestureApp.__init__], for a screen of the given [pyautogui.size()]. *)
Definition GestureApp_init (w h : Z) : GestureApp :=
  {| prev_mouse_x := None;
     prev_mouse_y := None;
     screen_w := w;
     screen_h := h;
     last_times := <["volume"%string := 0.0]> (<["mute"%string := 0.0]>
                   (<["click"%string := 0.0]> (<["keyboard"%string := 0.0]>
                   (<["scroll"%string := 0.0]> ∅))));
     scroll_mode := false;
     last_index_y := None |}.

Definition set_prev_mouse (px py : option Z) (a : GestureApp) : GestureApp :=
  {| prev_mouse_x := px; prev_mouse_y := py;
     screen_w := screen_w a; screen_h := screen_h a;
     last_times := last_times a;
     scroll_mode := scroll_mode a; last_index_y := last_index_y a |}.

Definition set_last_times (lt : gmap string Q) (a : GestureApp) : GestureApp :=
  {| prev_mouse_x := prev_mouse_x a; prev_mouse_y := prev_mouse_y a;
     screen_w := screen_w a; screen_h := screen_h a;
     last_times := lt;
     scroll_mode := scroll_mode a; last_index_y := last_index_y a |}.

Definition set_scroll_mode (mode : bool) (a : GestureApp) : GestureApp :=
  {| prev_mouse_x := prev_mouse_x a; prev_mouse_y := prev_mouse_y a;
     screen_w := screen_w a; screen_h := screen_h a;
     last_times := last_times a;
     scroll_mode := mode; last_index_y := last_index_y a |}.

Definition set_last_index_y (base : option Q) (a : GestureApp) : GestureApp :=
  {| prev_mouse_x := prev_mouse_x a; prev_mouse_y := prev_mouse_y a;
     screen_w := screen_w a; screen_h := screen_h a;
     last_times := last_times a;
     scroll_mode := scroll_mode a; last_index_y := base |}.

(** The calls the loop makes into pyautogui and the volume controller. *)
Inductive call : Type :=
  | moveTo (px py : Z)
  | click
  | rightClick
  | scroll (amount : Z)
  | hotkey (modifier key : string)
  | volume_up
  | volume_down
  | mute_unmute.

(** A call together with the clock reading current when it was made: the
    value returned by the latest [time.time()] ([None] before the first
    one).  For a call guarded by [_throttle] this is the [now] of the
    [_throttle] call that let it through. *)
Record emission : Type := Emission { at_time : option Q; what : call }.

(** The object, the number of [time.time()] calls made so far with the
    latest value read, and the calls emitted so far (oldest first). *)
Record machine : Type := Machine {
  self : GestureApp;
  reads : nat;
  latest_now : option Q;
  trace : list emission
}.

Definition M (A : Type) : Type := machine -> outcome A * machine.

Definition ret {A : Type} (a : A) : M A := fun m => (Ok a, m).

Definition bind {A B : Type} (c : M A) (k : A -> M B) : M B :=
  fun m =>
    match c m with
    | (Ok a, m') => k a m'
    | (Raise e, m') => (Raise e, m')
    end.

Notation "'let!' p ':=' c 'in' k" :=
  (bind c (fun p => k))
  (at level 10, p name, c at level 100, k at level 200).
Notation "'do!' c 'in' k" :=
  (bind c (fun _ => k))
  (at level 10, c at level 100, k at level 200).

(** An expression that may raise, evaluated in the current state. *)
Definition eval {A : Type} (o : outcome A) : M A := fun m => (o, m).

(** Reading an attribute of [self]. *)
Definition attr {A : Type} (f : GestureApp -> A) : M A :=
  fun m => (Ok (f (self m)), m).

(** Assigning attributes of [self]. *)
Definition assign (f : GestureApp -> GestureApp) : M unit :=
  fun m => (Ok tt, {| self := f (self m); reads := reads m;
                      latest_now := latest_now m; trace := trace m |}).

(** Recording a call. *)
Definition emit (c : call) : M unit :=
  fun m => (Ok tt, {| self := self m; reads := reads m;
                      latest_now := latest_now m;
                      trace := trace m ++ [Emission (latest_now m) c] |}).

(** A float operand that must not be [None]. *)
Definition operand {A : Type} (o : option A) : M A :=
  match o with
  | Some a => ret a
  | None => eval (Raise TypeError)
  end.

(** [o is None]. *)
Definition is_None {A : Type} (o : option A) : bool :=
  match o with
  | None => true
  | Some _ => false
  end.

(** [a and c], with Python's short circuit. *)
Definition and_then (a : bool) (c : M bool) : M bool :=
  if a then c else ret false.

(** [if b: c] without an [else]. *)
Definition when (b : bool) (c : M unit) : M unit :=
  if b then c else ret tt.

(** ** The dispatcher: [_throttle], the shortcuts and the frame loop *)

Section Dispatcher.

(** [math.hypot]. *)
Variable math_hypot : Q -> Q -> Q.

(** [time.time]: the value returned by its n-th call (counting from 0). *)
Variable time_time : nat -> Q.

Definition time_time_call : M Q :=
  fun m =>
    let now := time_time (reads m) in
    (Ok now, {| self := self m; reads := S (reads m);
                latest_now := Some now; trace := trace m |}).

Definition _throttle (key : string) (cooldown : Q) : M bool :=
  let! now := time_time_call in
  let! times := attr last_times in
  if Qgeb (now - default 0 (times !! key)) cooldown then
    do! assign (set_last_times (<[key := now]> times)) in
    ret true
  else ret false.

(** A failing [pyautogui.hotkey] is caught and printed; the request has
    been made either way. *)
Definition _perform_keyboard_shortcut (gesture : gesture) : M unit :=
  let! fire := _throttle "keyboard" COOLDOWN_MED in
  if negb fire then ret tt
  else
    match gesture with
    | OK_SIGN => emit (hotkey "ctrl" "c")
    | L_SIGN => emit (hotkey "ctrl" "v")
    | PEACE => emit (hotkey "ctrl" "s")
    | _ => ret tt
    end.

(** *** The blocks of the loop body, in source order *)

(** "Mouse Move (index finger)". *)
Definition mouse_move (index_tip : landmark) : M unit :=
  let! w := attr screen_w in
  let! h := attr screen_h in
  let target_x := int (x index_tip * inject_Z w) in
  let target_y := int (y index_tip * inject_Z h) in
  let! px := attr prev_mouse_x in
  do! when (is_None px)
        (assign (set_prev_mouse (Some target_x) (Some target_y))) in
  let! px := attr prev_mouse_x in
  let! py := attr prev_mouse_y in
  let! px := operand px in
  let smooth_x := int (inject_Z px + inject_Z (target_x - px) * SMOOTHING) in
  let! py := operand py in
  let smooth_y := int (inject_Z py + inject_Z (target_y - py) * SMOOTHING) in
  do! emit (moveTo smooth_x smooth_y) in
  assign (set_prev_mouse (Some smooth_x) (Some smooth_y)).

(** "Left Click via Pinch".  The two position tuples are never empty, so
    the outer [if thumb_pos and index_pos] always holds. *)
Definition left_click (index_tip thumb_tip : landmark) : M unit :=
  let index_pos := (x index_tip, y index_tip) in
  let thumb_pos := (x thumb_tip, y thumb_tip) in
  let dist_pin :=
    math_hypot (fst thumb_pos - fst index_pos) (snd thumb_pos - snd index_pos) in
  let! fire := and_then (Qltb dist_pin PINCH_THRESHOLD)
                        (_throttle "click" COOLDOWN_MED) in
  when fire (emit click).

(** "Right Click via L_SIGN". *)
Definition right_click (gesture_text : gesture) : M unit :=
  let! fire := and_then (gesture_eqb gesture_text L_SIGN)
                        (_throttle "click" COOLDOWN_MED) in
  when fire (emit rightClick).

(** "Volume Controls": up, down, and the mute toggle. *)
Definition volume_controls (gesture_text : gesture) : M unit :=
  let! up := and_then (gesture_eqb gesture_text THUMBS_UP)
                      (_throttle "volume" COOLDOWN_SHORT) in
  do! when up (emit volume_up) in
  let! down := and_then (gesture_eqb gesture_text FIST)
                        (_throttle "volume" COOLDOWN_SHORT) in
  do! when down (emit volume_down) in
  let! mute := and_then (gesture_eqb gesture_text ROCK)
                        (_throttle "mute" COOLDOWN_MED) in
  when mute (emit mute_unmute).

(** "Keyboard Shortcuts". *)
Definition keyboard_shortcuts (gesture_text : gesture) : M unit :=
  when (gesture_eqb gesture_text OK_SIGN || gesture_eqb gesture_text L_SIGN
        || gesture_eqb gesture_text PEACE)
       (_perform_keyboard_shortcut gesture_text).

(** "Scrolling mode (OPEN_PALM)". *)
Definition scrolling (gesture_text : gesture) (index_tip : landmark) : M unit :=
  let! mode := attr scroll_mode in
  if gesture_eqb gesture_text OPEN_PALM then
    if negb mode then
      do! assign (set_scroll_mode true) in
      assign (set_last_index_y (Some (y index_tip)))
    else
      let! base := attr last_index_y in
      let! base := operand base in
      let dy := base - y index_tip in
      let! fire := and_then (Qltb SCROLL_MIN_DELTA (Qabs dy))
                            (_throttle "scroll" COOLDOWN_SCROLL) in
      do! when fire
            (let scroll_amount := int (dy * SCROLL_SENSITIVITY) in
             when (negb (scroll_amount =? 0)%Z) (emit (scroll scroll_amount))) in
      assign (set_last_index_y (Some (base * 0.85 + y index_tip * 0.15)))
  else
    when mode
      (do! assign (set_scroll_mode false) in
       assign (set_last_index_y None)).

(** One detection result: [None] when [results] is empty or has no
    [multi_hand_landmarks], otherwise the landmark list of the first hand. *)
Definition frame : Type := option (list landmark).

(** The body of the [while self.running] loop for one captured frame (the
    drawing and the GUI update, which decide nothing, are left out). *)
Definition loop_body (f : frame) : M unit :=
  match f with
  | None => ret tt
  | Some lm =>
      let! gesture_text := eval (classify math_hypot lm) in
      let! index_tip := eval (getitem lm 8) in
      let! thumb_tip := eval (getitem lm 4) in
      do! mouse_move index_tip in
      do! left_click index_tip thumb_tip in
      do! right_click gesture_text in
      do! volume_controls gesture_text in
      do! keyboard_shortcuts gesture_text in
      scrolling gesture_text index_tip
  end.

(** The [while] loop over the frames captured until [stop]; an exception
    leaves the loop. *)
Fixpoint while_running (frames : list frame) : M unit :=
  match frames with
  | [] => ret tt
  | f :: rest => do! loop_body f in while_running rest
  end.

(** [_loop]: the frames, then the cleanup. *)
Definition _loop (frames : list frame) : M unit :=
  do! while_running frames in
  assign (set_prev_mouse None None).

End Dispatcher.

(** A machine about to start on an application object: no clock reading
    made, nothing emitted. *)
Definition start (a : GestureApp) : machine :=
  {| self := a; reads := 0; latest_now := None; trace := [] |}.

(** A freshly constructed application, before any frame. *)
Definition boot (w h : Z) : machine := start (GestureApp_init w h).

(** The machine after a computation, whatever its outcome. *)
Definition after {A : Type} (c : M A) (m : machine) : machine := (c m).2.

(** ** Concrete inputs for the examples *)

(** An executable stand-in for [math.hypot]: the Euclidean norm rounded
    down to a multiple of one millionth. *)
Definition hypot_micro (a b : Q) : Q :=
  let s := a * a + b * b in
  inject_Z (Z.sqrt (Qnum s * 1000000000000 / Zpos (Qden s))) / 1000000.

(** A clock that starts at 1000 s and advances 10 ms per reading. *)
Definition clock_10ms (n : nat) : Q := 1000 + inject_Z (Z.of_nat n) * 0.01.

Definition origin : landmark := Landmark 0 0.

(** A 21-landmark hand from its ten tip and joint landmarks; the eleven
    landmarks that [classify] does not read are put at [filler]. *)
Definition hand (filler thumb_ip thumb_tip index_pip index_tip middle_pip
                 middle_tip ring_pip ring_tip pinky_pip pinky_tip : landmark)
  : list landmark :=
  [filler; filler; filler; thumb_ip; thumb_tip; filler; index_pip; filler;
   index_tip; filler; middle_pip; filler; middle_tip; filler; ring_pip;
   filler; ring_tip; filler; pinky_pip; filler; pinky_tip].

(** All five fingers extended, thumb to the left of its joint. *)
Definition open_hand : list landmark :=
  hand origin (Landmark 0.3 0.6) (Landmark 0.2 0.55)
       (Landmark 0.4 0.5) (Landmark 0.4 0.3)
       (Landmark 0.5 0.5) (Landmark 0.5 0.25)
       (Landmark 0.6 0.5) (Landmark 0.6 0.3)
       (Landmark 0.7 0.55) (Landmark 0.7 0.4).

(** Thumb tip and index tip touching, the other fingers extended. *)
Definition ok_hand : list landmark :=
  hand origin (Landmark 0.35 0.5) (Landmark 0.4 0.41)
       (Landmark 0.4 0.5) (Landmark 0.41 0.4)
       (Landmark 0.5 0.5) (Landmark 0.5 0.25)
       (Landmark 0.6 0.5) (Landmark 0.6 0.3)
       (Landmark 0.7 0.55) (Landmark 0.7 0.4).

(** Index and middle extended, the others (and the thumb) folded. *)
Definition peace_hand : list landmark :=
  hand origin (Landmark 0.3 0.6) (Landmark 0.35 0.62)
       (Landmark 0.4 0.5) (Landmark 0.4 0.3)
       (Landmark 0.5 0.5) (Landmark 0.5 0.25)
       (Landmark 0.6 0.5) (Landmark 0.6 0.55)
       (Landmark 0.7 0.55) (Landmark 0.7 0.6).

(** Everything folded. *)
Definition fist_hand : list landmark :=
  hand origin (Landmark 0.3 0.6) (Landmark 0.35 0.62)
       (Landmark 0.4 0.5) (Landmark 0.4 0.55)
       (Landmark 0.5 0.5) (Landmark 0.5 0.55)
       (Landmark 0.6 0.5) (Landmark 0.6 0.55)
       (Landmark 0.7 0.55) (Landmark 0.7 0.6).

(** Thumb and index extended, the other three folded. *)
Definition l_hand : list landmark :=
  hand origin (Landmark 0.3 0.6) (Landmark 0.2 0.55)
       (Landmark 0.4 0.5) (Landmark 0.4 0.3)
       (Landmark 0.5 0.5) (Landmark 0.5 0.55)
       (Landmark 0.6 0.5) (Landmark 0.6 0.55)
       (Landmark 0.7 0.55) (Landmark 0.7 0.6).

(** [open_hand] with the eleven unread landmarks elsewhere. *)
Definition open_hand_moved : list landmark :=
  hand (Landmark 0.9 0.1) (Landmark 0.3 0.6) (Landmark 0.2 0.55)
       (Landmark 0.4 0.5) (Landmark 0.4 0.3)
       (Landmark 0.5 0.5) (Landmark 0.5 0.25)
       (Landmark 0.6 0.5) (Landmark 0.6 0.3)
       (Landmark 0.7 0.55) (Landmark 0.7 0.4).

(** [open_hand] followed by a 22nd landmark. *)
Definition long_hand : list landmark := open_hand ++ [origin].

(** A clock that starts at 1000 s and advances half a second per reading. *)
Definition clock_500ms (n : nat) : Q := 1000 + inject_Z (Z.of_nat n) * 0.5.

(** An open palm whose index tip is at height [tip_y] (above its joint
    for [tip_y < 0.7]). *)
Definition palm_at (tip_y : Q) : list landmark :=
  hand origin (Landmark 0.3 0.6) (Landmark 0.2 0.55)
       (Landmark 0.4 0.7) (Landmark 0.4 tip_y)
       (Landmark 0.5 0.5) (Landmark 0.5 0.25)
       (Landmark 0.6 0.5) (Landmark 0.6 0.3)
       (Landmark 0.7 0.55) (Landmark 0.7 0.4).

(** A fist whose (folded) index finger has tip and joint at [tip]. *)
Definition fist_pointing (tip : landmark) : list landmark :=
  hand origin (Landmark 0.3 0.6) (Landmark 0.35 0.62)
       tip tip
       (Landmark 0.5 0.5) (Landmark 0.5 0.55)
       (Landmark 0.6 0.5) (Landmark 0.6 0.55)
       (Landmark 0.7 0.55) (Landmark 0.7 0.6).

(** The application after one frame of an open palm at height 0.5: in
    scroll mode, with that baseline. *)
Definition scrolling_machine : machine :=
  after (loop_body hypot_micro clock_10ms (Some (palm_at 0.5))) (boot 1920 1080).

(** The application after one frame of a fist pointing at the screen's
    origin: the pointer is at (0, 0). *)
Definition parked_machine : machine :=
  after (loop_body hypot_micro clock_10ms (Some (fist_pointing origin)))
        (boot 1920 1080).

(** An index tip three pixels right of and below the origin of a
    1920 x 1080 screen. *)
Definition near_origin : landmark := Landmark 0.0016 0.003.

(** ** The classification contract, in the specification's words *)

(** What the rules look at: the five finger states and the pinch
    distance. *)
Record finger_state : Type := FingerState {
  thumb_up : bool;
  index_up : bool;
  middle_up : bool;
  ring_up : bool;
  pinky_up : bool;
  pinch_distance : Q
}.

(** The number of raised fingers among index, middle, ring and pinky. *)
Definition up_count (s : finger_state) : nat :=
  length (filter (fun b => b = true) [index_up s; middle_up s; ring_up s; pinky_up s]).

Definition rule_open_palm (s : finger_state) : bool :=
  Nat.eqb (up_count s) 4 && thumb_up s.
Definition rule_ok_sign (s : finger_state) : bool :=
  Qltb (pinch_distance s) DIST_OK_THRESHOLD.
Definition rule_peace (s : finger_state) : bool :=
  index_up s && middle_up s && negb (ring_up s) && negb (pinky_up s).
Definition rule_rock (s : finger_state) : bool :=
  index_up s && negb (middle_up s) && negb (ring_up s) && pinky_up s.
Definition rule_l_sign (s : finger_state) : bool :=
  thumb_up s && index_up s && negb (middle_up s) && negb (ring_up s)
  && negb (pinky_up s).
Definition rule_thumbs_up (s : finger_state) : bool :=
  thumb_up s && negb (index_up s) && negb (middle_up s) && negb (ring_up s)
  && negb (pinky_up s).
Definition rule_fist (s : finger_state) : bool :=
  Nat.eqb (up_count s) 0 && negb (thumb_up s).

(** The fixed priority list, rules (1) to (7). *)
Definition priority_rules : list ((finger_state -> bool) * gesture) :=
  [(rule_open_palm, OPEN_PALM); (rule_ok_sign, OK_SIGN); (rule_peace, PEACE);
   (rule_rock, ROCK); (rule_l_sign, L_SIGN); (rule_thumbs_up, THUMBS_UP);
   (rule_fist, FIST)].

(** The label of the first rule that matches; rule (8) when none does. *)
Fixpoint first_match (rules : list ((finger_state -> bool) * gesture))
                     (s : finger_state) : gesture :=
  match rules with
  | [] => UNKNOWN
  | (holds, label) :: rest => if holds s then label else first_match rest s
  end.

(** The finger states of a hand, by the anatomical indices of the landmark
    list (tip, joint): thumb (4, 3), index (8, 6), middle (12, 10),
    ring (16, 14), pinky (20, 18). *)
Definition finger_states (hypot : Q -> Q -> Q) (lm : list landmark)
  : option finger_state :=
  match lm !! 4%nat, lm !! 3%nat, lm !! 8%nat, lm !! 6%nat, lm !! 12%nat,
        lm !! 10%nat, lm !! 16%nat, lm !! 14%nat, lm !! 20%nat, lm !! 18%nat with
  | Some t4, Some t3, Some i8, Some i6, Some m12, Some m10, Some r16, Some r14,
    Some p20, Some p18 =>
      Some {| thumb_up := Qltb (x t4) (x t3);
              index_up := Qltb (y i8) (y i6);
              middle_up := Qltb (y m12) (y m10);
              ring_up := Qltb (y r16) (y r14);
              pinky_up := Qltb (y p20) (y p18);
              pinch_distance := hypot (x t4 - x i8) (y t4 - y i8) |}
  | _, _, _, _, _, _, _, _, _, _ => None
  end.

(** The labels [classify] can return. *)
Definition classify_labels : list gesture :=
  [OPEN_PALM; OK_SIGN; PEACE; ROCK; L_SIGN; THUMBS_UP; FIST; UNKNOWN].

(** The indices of the landmark list that [classify] reads. *)
Definition read_indices : list nat :=
  [3; 4; 6; 8; 10; 12; 14; 16; 18; 20]%nat.

(** ** The dispatch contract, in the specification's words *)

(** The action category of a call: the key of the [last_times] entry that
    gates it.  Pointer moves are not gated. *)
Definition category (c : call) : option string :=
  match c with
  | moveTo _ _ => None
  | click | rightClick => Some "click"%string
  | scroll _ => Some "scroll"%string
  | hotkey _ _ => Some "keyboard"%string
  | volume_up | volume_down => Some "volume"%string
  | mute_unmute => Some "mute"%string
  end.

(** The cooldown every call site passes for a key. *)
Definition cooldown (key : string) : Q :=
  if String.eqb key "volume" then COOLDOWN_SHORT
  else if String.eqb key "scroll" then COOLDOWN_SCROLL
  else COOLDOWN_MED.

(** [last_times.get(key, 0)]. *)
Definition last_fire (key : string) (a : GestureApp) : Q :=
  default 0 (last_times a !! key).

(** Any two emissions of one category are stamped at least that
    category's cooldown apart, the later one later. *)
Definition spaced (tr : list emission) : Prop :=
  forall (i j : nat) (ei ej : emission) (key : string),
    (i < j)%nat -> tr !! i = Some ei -> tr !! j = Some ej ->
    category (what ei) = Some key -> category (what ej) = Some key ->
    exists ti tj, at_time ei = Some ti /\ at_time ej = Some tj /\
                  cooldown key <= tj - ti.

(** Every gated emission is stamped, and not after its category's
    [last_times] entry. *)
Definition settled (tr : list emission) (times : gmap string Q) : Prop :=
  forall (e : emission) (key : string),
    In e tr -> category (what e) = Some key ->
    exists t, at_time e = Some t /\ t <= default 0 (times !! key).

(** The invariant of the run on the emissions and the cooldown clocks. *)
Definition paced (m : machine) : Prop :=
  spaced (trace m) /\ settled (trace m) (last_times (self m)).

(** The smoothing step of one pointer coordinate. *)
Definition smooth (target prev : Z) : Z :=
  int (inject_Z prev + inject_Z (target - prev) * SMOOTHING).

(** The attributes that are assigned together are set together: the two
    pointer coordinates, and the scroll flag with its baseline. *)
Definition consistent (a : GestureApp) : bool :=
  Bool.eqb (is_None (prev_mouse_x a)) (is_None (prev_mouse_y a))
  && implb (scroll_mode a) (negb (is_None (last_index_y a))).

(** The scroll sub-state machine: the next [scroll_mode] and baseline, from
    the gesture and the index tip's height.  Idle enters Scrolling on
    OPEN_PALM and takes the tip as baseline; Scrolling stays on OPEN_PALM
    and low-pass filters the baseline; any other gesture leads to Idle,
    and out of Scrolling clears the baseline.  (Scrolling without a
    baseline does not occur on a [consistent] object.) *)
Definition scroll_step (g : gesture) (tip_y : Q) (mode : bool)
                       (baseline : option Q) : bool * option Q :=
  match g, mode with
  | OPEN_PALM, false => (true, Some tip_y)
  | OPEN_PALM, true =>
      (true, option_map (fun b => b * 0.85 + tip_y * 0.15) baseline)
  | _, true => (false, None)
  | _, false => (false, baseline)
  end.

(** Everything the object holds apart from the cooldown clocks. *)
Definition geometry (a : GestureApp)
  : option Z * option Z * Z * Z * bool * option Q :=
  (prev_mouse_x a, prev_mouse_y a, screen_w a, screen_h a, scroll_mode a,
   last_index_y a).

(** Triples over [M]; the postcondition also sees a raised exception and
    the state it leaves. *)
Definition hoare {A : Type} (P : machine -> Prop) (c : M A)
                 (R : outcome A -> machine -> Prop) : Prop :=
  forall m, P m -> R (c m).1 (c m).2.

(** ** The volume controller *)

(** Python's two-argument [min] and [max]: the first argument unless the
    second is strictly smaller (larger). *)
Definition py_min (a b : Q) : Q := if Qltb b a then b else a.
Definition py_max (a b : Q) : Q := if Qltb a b then b else a.

(** The four methods of pycaw's [IAudioEndpointVolume] that the
    controller calls, over the state [D] of the audio device behind the
    COM pointer.  A call returns its value, or [None] when it raises, and
    the state it leaves. *)
Record IAudioEndpointVolume (D : Type) : Type := {
  SetMasterVolumeLevelScalar : Q -> D -> option unit * D;
  GetMasterVolumeLevelScalar : D -> option Q * D;
  GetMute : D -> option bool * D;
  SetMute : bool -> D -> option unit * D
}.
Arguments SetMasterVolumeLevelScalar {D} _ _ _.
Arguments GetMasterVolumeLevelScalar {D} _ _.
Arguments GetMute {D} _ _.
Arguments SetMute {D} _ _ _.

(** The [VolumeController] object: its [volume] attribute is the endpoint,
    or [None] when pycaw is missing or its initialisation failed. *)
Record VolumeController (D : Type) : Type := {
  volume : option (IAudioEndpointVolume D)
}.
Arguments volume {D} _.


Section VolumeMethods.

Context {D : Type}.
Variable vc : VolumeController D.

Definition set_volume (level : Q) (d : D) : D :=
  match volume vc with
  | Some ep =>
      let level := py_max 0.0 (py_min 1.0 level) in
      (SetMasterVolumeLevelScalar ep level d).2
  | None => d
  end.

Definition get_volume (d : D) : Q * D :=
  match volume vc with
  | Some ep =>
      match GetMasterVolumeLevelScalar ep d with
      | (Some v, d') => (v, d')
      | (None, d') => (0.0, d')
      end
  | None => (0.0, d)
  end.

Definition VolumeController_volume_up (step : Q) (d : D) : D :=
  match volume vc with
  | Some _ =>
      let (v, d') := get_volume d in
      set_volume (py_min (v + step) 1.0) d'
  | None => d
  end.

Definition VolumeController_volume_down (step : Q) (d : D) : D :=
  match volume vc with
  | Some _ =>
      let (v, d') := get_volume d in
      set_volume (py_max (v - step) 0.0) d'
  | None => d
  end.

Definition VolumeController_mute_unmute (d : D) : D :=
  match volume vc with
  | Some ep =>
      match GetMute ep d with
      | (Some muted, d') => (SetMute ep (negb muted) d').2
      | (None, d') => d'
      end
  | None => d
  end.

End VolumeMethods.

(** The default [step] of [volume_up] and [volume_down]. *)
Definition default_step : Q := 0.05.

(** What a call of the loop does to the audio device: the three volume
    calls go to the controller with the default step, the pyautogui calls
    do not touch it. *)
Definition perform {D : Type} (vc : VolumeController D) (c : call) (d : D) : D :=
  match c with
  | volume_up => VolumeController_volume_up vc default_step d
  | volume_down => VolumeController_volume_down vc default_step d
  | mute_unmute => VolumeController_mute_unmute vc d
  | _ => d
  end.

(** The audio device after the calls of a run, in order. *)
Definition perform_all {D : Type} (vc : VolumeController D)
                       (tr : list emission) (d : D) : D :=
  fold_left (fun d e => perform vc (what e) d) tr d.

(** An audio device that works: it holds the master level and the mute
    flag, stores what it is given and never raises. *)
Record speaker : Type := Speaker { master_level : Q; muted : bool }.

Definition working_endpoint : IAudioEndpointVolume speaker :=
  {| SetMasterVolumeLevelScalar :=
       fun level d => (Some tt, Speaker level (muted d));
     GetMasterVolumeLevelScalar := fun d => (Some (master_level d), d);
     GetMute := fun d => (Some (muted d), d);
     SetMute := fun b d => (Some tt, Speaker (master_level d) b) |}.

(** The controller of a working device. *)
Definition working : VolumeController speaker :=
  {| volume := Some working_endpoint |}.

(** The number of mute toggles among the calls of a run. *)
Definition mute_toggles (tr : list emission) : nat :=
  length (List.filter (fun e => match what e with mute_unmute => true | _ => false end) tr).

(** ** Further notions for the dispatcher *)

(** The calls a frame classified [g] may make: the pointer move and the
    pinch click on any gesture, the others on their own gesture only. *)
Definition permitted (g : gesture) (c : call) : bool :=
  match c with
  | moveTo _ _ | click => true
  | rightClick => gesture_eqb g L_SIGN
  | scroll _ => gesture_eqb g OPEN_PALM
  | hotkey modifier key =>
      String.eqb modifier "ctrl"
      && match g with
         | OK_SIGN => String.eqb key "c"
         | L_SIGN => String.eqb key "v"
         | PEACE => String.eqb key "s"
         | _ => false
         end
  | volume_up => gesture_eqb g THUMBS_UP
  | volume_down => gesture_eqb g FIST
  | mute_unmute => gesture_eqb g ROCK
  end.

(** A scroll call moves by at least three units. *)
Definition scrolls_far (c : call) : bool :=
  match c with
  | scroll amount => (3 <=? Z.abs amount)%Z
  | _ => true
  end.

(** The emissions of [m] are [t] followed by calls that satisfy [P]. *)
Definition added_since (P : call -> Prop) (t : list emission) (m : machine) : Prop :=
  exists more, trace m = t ++ more /\ Forall (fun e => P (what e)) more.

(** What a property of calls must grant for every call of a frame
    classified [g] to have it. *)
Definition dispatches (P : call -> Prop) (g : gesture) : Prop :=
  (forall px py, P (moveTo px py)) /\
  P click /\
  (g = L_SIGN -> P rightClick) /\
  (g = THUMBS_UP -> P volume_up) /\
  (g = FIST -> P volume_down) /\
  (g = ROCK -> P mute_unmute) /\
  (g = OK_SIGN -> P (hotkey "ctrl" "c")) /\
  (g = L_SIGN -> P (hotkey "ctrl" "v")) /\
  (g = PEACE -> P (hotkey "ctrl" "s")) /\
  (g = OPEN_PALM -> forall n, (3 <= Z.abs n)%Z -> P (scroll n)).

(** Scroll mode is off, and the emissions are [t] followed by calls that
    are not scrolls. *)
Definition idle_since (t : list emission) (m : machine) : Prop :=
  scroll_mode (self m) = false /\
  added_since (fun c => category c <> Some "scroll"%string) t m.

(** A landmark inside the image: both normalised coordinates in [0, 1]. *)
Definition in_image (p : landmark) : Prop :=
  0 <= x p <= 1 /\ 0 <= y p <= 1.

(** A frame whose hand, if any, has its index tip inside the image. *)
Definition tip_in_image (f : frame) : Prop :=
  forall lm index_tip,
    f = Some lm -> lm !! 8%nat = Some index_tip -> in_image index_tip.

(** A pointer move to a position within [0, w] x [0, h]; any other call. *)
Definition on_screen (w h : Z) (c : call) : Prop :=
  match c with
  | moveTo px py => (0 <= px <= w)%Z /\ (0 <= py <= h)%Z
  | _ => True
  end.

(** The screen is [w] x [h], the pointer position, if set, is within it,
    and so was every pointer move made. *)
Definition framed (w h : Z) (m : machine) : Prop :=
  screen_w (self m) = w /\ screen_h (self m) = h /\
  (forall p, prev_mouse_x (self m) = Some p -> (0 <= p <= w)%Z) /\
  (forall p, prev_mouse_y (self m) = Some p -> (0 <= p <= h)%Z) /\
  Forall (fun e => on_screen w h (what e)) (trace m).

(** An audio device whose level cannot be read: the query raises; the
    rest works. *)
Definition unreadable_endpoint : IAudioEndpointVolume speaker :=
  {| SetMasterVolumeLevelScalar :=
       fun level d => (Some tt, Speaker level (muted d));
     GetMasterVolumeLevelScalar := fun d => (None, d);
     GetMute := fun d => (Some (muted d), d);
     SetMute := fun b d => (Some tt, Speaker (master_level d) b) |}.

(** An L sign whose thumb tip is 0.037 from the index tip. *)
Definition l_pinch_hand : list landmark :=
  hand origin (Landmark 0.45 0.4) (Landmark 0.4 0.3)
       (Landmark 0.4 0.5) (Landmark 0.4 0.337)
       (Landmark 0.5 0.5) (Landmark 0.5 0.55)
       (Landmark 0.6 0.5) (Landmark 0.6 0.55)
       (Landmark 0.7 0.55) (Landmark 0.7 0.6).

(** A hand of twenty landmarks. *)
Definition short_hand : list landmark := take 20 open_hand.

(** * Properties of the classifier *)

(** A list of length 21 is a list of 21 named elements. *)
Ltac explode_list lm H :=
  do 21 (destruct lm as [|? lm]; [simpl in H; lia|]);
  destruct lm; [|simpl in H; lia].

Section ClassifierFacts.

Variable hypot : Q -> Q -> Q.

Lemma up_count_sum (s : finger_state) :
  sum [index_up s; middle_up s; ring_up s; pinky_up s] = Z.of_nat (up_count s).
Proof.
  unfold up_count.
  destruct (index_up s), (middle_up s), (ring_up s), (pinky_up s); reflexivity.
Qed.

(** On a hand whose ten read landmarks are present, [classify] is the
    if-chain of the source over the finger states. *)
Lemma classify_finger_states (lm : list landmark) (s : finger_state) :
  finger_states hypot lm = Some s ->
  classify hypot lm =
    Ok (if (sum [index_up s; middle_up s; ring_up s; pinky_up s] =? 4)%Z
           && thumb_up s then OPEN_PALM
        else if Qltb (pinch_distance s) DIST_OK_THRESHOLD then OK_SIGN
        else if rule_peace s then PEACE
        else if rule_rock s then ROCK
        else if rule_l_sign s then L_SIGN
        else if rule_thumbs_up s then THUMBS_UP
        else if (sum [index_up s; middle_up s; ring_up s; pinky_up s] =? 0)%Z
                && negb (thumb_up s) then FIST
        else UNKNOWN).
Proof.
  unfold finger_states, classify, getitem.
  destruct (lm !! 4%nat) as [t4|]; [|discriminate].
  destruct (lm !! 3%nat) as [t3|]; [|discriminate].
  destruct (lm !! 8%nat) as [i8|]; [|discriminate].
  destruct (lm !! 6%nat) as [i6|]; [|discriminate].
  destruct (lm !! 12%nat) as [m12|]; [|discriminate].
  destruct (lm !! 10%nat) as [m10|]; [|discriminate].
  destruct (lm !! 16%nat) as [r16|]; [|discriminate].
  destruct (lm !! 14%nat) as [r14|]; [|discriminate].
  destruct (lm !! 20%nat) as [p20|]; [|discriminate].
  destruct (lm !! 18%nat) as [p18|]; [|discriminate].
  intros [= <-]. cbn [obind thumb_up index_up middle_up ring_up pinky_up
                      pinch_distance].
  unfold rule_peace, rule_rock, rule_l_sign, rule_thumbs_up, euclidean, finger_up.
  cbn [thumb_up index_up middle_up ring_up pinky_up].
  repeat match goal with
         | |- context [if ?c then _ else _] => destruct c
         end; reflexivity.
Qed.

(** A hand of 21 landmarks has all its finger states. *)
Lemma finger_states_total (lm : list landmark) :
  length lm = 21%nat -> exists s, finger_states hypot lm = Some s.
Proof.
  intros H. explode_list lm H. eexists. reflexivity.
Qed.

(** On 21 landmarks [classify] returns one of its eight labels. *)
Lemma classify_returns_label (lm : list landmark) :
  length lm = 21%nat -> exists g, classify hypot lm = Ok g /\ In g classify_labels.
Proof.
  intros Hlen. destruct (finger_states_total lm Hlen) as [s Hs].
  rewrite (classify_finger_states lm s Hs). eexists. split; [reflexivity|].
  unfold classify_labels.
  repeat match goal with
         | |- context [if ?c then _ else _] => destruct c
         end; simpl; tauto.
Qed.

(** [classify] agrees with the first matching rule of the priority list. *)
Lemma classify_first_match (lm : list landmark) (s : finger_state) :
  finger_states hypot lm = Some s ->
  classify hypot lm = Ok (first_match priority_rules s).
Proof.
  intros Hs. rewrite (classify_finger_states lm s Hs).
  rewrite up_count_sum. cbn [first_match priority_rules].
  unfold rule_open_palm, rule_fist, rule_ok_sign.
  replace (Z.of_nat (up_count s) =? 4)%Z with (Nat.eqb (up_count s) 4)
    by (unfold up_count;
        destruct (index_up s), (middle_up s), (ring_up s), (pinky_up s);
        reflexivity).
  replace (Z.of_nat (up_count s) =? 0)%Z with (Nat.eqb (up_count s) 0)
    by (unfold up_count;
        destruct (index_up s), (middle_up s), (ring_up s), (pinky_up s);
        reflexivity).
  reflexivity.
Qed.

(** C1: on every 21-landmark input, [classify] returns the label of the
    first rule of the fixed priority list that the hand's finger states
    match (OpenPalm, OkSign, Peace, Rock, LSign, ThumbsUp, Fist, otherwise
    Unknown); in particular a hand that matches the OpenPalm rule is
    OpenPalm whatever else it matches, so never Peace. *)
Theorem classify_priority_order (lm : list landmark) :
  length lm = 21%nat ->
  exists s, finger_states hypot lm = Some s /\
            classify hypot lm = Ok (first_match priority_rules s) /\
            (rule_open_palm s = true ->
             classify hypot lm = Ok OPEN_PALM /\ classify hypot lm <> Ok PEACE).
Proof.
  intros Hlen. destruct (finger_states_total lm Hlen) as [s Hs].
  exists s. split; [exact Hs|]. pose proof (classify_first_match lm s Hs) as Hc.
  split; [exact Hc|]. intros Hopen. rewrite Hc. cbn [first_match priority_rules].
  rewrite Hopen. split; [reflexivity | discriminate].
Qed.

(** C8: [classify] is a function of its argument alone, and on every
    21-landmark input it returns, without raising, exactly one of its
    eight labels; the same input gives the same output. *)
Theorem classify_total_deterministic (lm : list landmark) :
  length lm = 21%nat ->
  (exists g, classify hypot lm = Ok g /\ In g classify_labels) /\
  (forall lm', lm' = lm -> classify hypot lm' = classify hypot lm).
Proof.
  intros Hlen. split.
  - apply classify_returns_label. exact Hlen.
  - intros lm' ->. reflexivity.
Qed.

(** C9: two 21-landmark inputs that agree at indices 3, 4, 6, 8, 10, 12,
    14, 16, 18 and 20 get the same label, whatever the other eleven
    landmarks are. *)
Theorem classify_reads_ten_landmarks (lm1 lm2 : list landmark) :
  length lm1 = 21%nat -> length lm2 = 21%nat ->
  Forall (fun i => lm1 !! i = lm2 !! i) read_indices ->
  classify hypot lm1 = classify hypot lm2.
Proof.
  intros _ _ Hagree. unfold read_indices in Hagree.
  repeat match goal with
         | H : Forall _ (_ :: _) |- _ =>
             let E := fresh "E" in
             apply Forall_cons in H; destruct H as [E H]
         end.
  unfold classify, getitem. rewrite E, E0, E1, E2, E3, E4, E5, E6, E7, E8.
  reflexivity.
Qed.

(** A list shorter than 21 makes [classify] raise [IndexError]. *)
Lemma classify_short (lm : list landmark) :
  (length lm < 21)%nat -> classify hypot lm = Raise IndexError.
Proof.
  intros H.
  do 21 (destruct lm as [|? lm]; [reflexivity|]).
  simpl in H. lia.
Qed.

(** A list longer than 21 is classified by its first 21 landmarks. *)
Lemma classify_take (lm : list landmark) :
  (21 <= length lm)%nat -> classify hypot lm = classify hypot (take 21 lm).
Proof.
  intros H.
  do 21 (destruct lm as [|? lm]; [simpl in H; lia|]).
  reflexivity.
Qed.

(** C4, as the code has it: a list of fewer than 21 landmarks makes
    [classify] raise [IndexError]; a list of more than 21 raises nothing
    and is given the label of its first 21 landmarks. *)
Theorem classify_wrong_count (lm : list landmark) :
  length lm <> 21%nat ->
  ((length lm < 21)%nat /\ classify hypot lm = Raise IndexError) \/
  ((21 < length lm)%nat /\
   exists g, classify hypot lm = Ok g /\ In g classify_labels /\
             classify hypot (take 21 lm) = Ok g).
Proof.
  intros Hne. destruct (Nat.lt_ge_cases (length lm) 21) as [Hlt|Hge].
  - left. split; [exact Hlt | apply classify_short; exact Hlt].
  - right. split; [lia|].
    assert (Htake : length (take 21 lm) = 21%nat) by (rewrite length_take; lia).
    destruct (classify_returns_label (take 21 lm) Htake) as [g [Hg Hin]].
    exists g. rewrite classify_take by exact Hge. auto.
Qed.

End ClassifierFacts.

(** * Properties of the dispatcher *)

(** ** Order on the rationals, and the integer smoothing step *)

Lemma Qgeb_true (a b : Q) : Qgeb a b = true <-> b <= a.
Proof. unfold Qgeb. apply Qle_bool_iff. Qed.

Lemma Qltb_true (a b : Q) : Qltb a b = true <-> a < b.
Proof.
  unfold Qltb. rewrite negb_true_iff. split.
  - intros H. apply Qnot_le_lt. intros Hle.
    apply Qle_bool_iff in Hle. congruence.
  - intros H. destruct (Qle_bool b a) eqn:E; [|reflexivity].
    apply Qle_bool_iff in E. exfalso. exact (Qlt_not_le _ _ H E).
Qed.

Lemma cooldown_nonneg (key : string) : 0 <= cooldown key.
Proof.
  unfold cooldown.
  destruct (String.eqb key "volume"); [discriminate|].
  destruct (String.eqb key "scroll"); discriminate.
Qed.

(** The thresholds are ordered: a distance under the OK-sign threshold is
    under the pinch threshold. *)
Lemma ok_distance_is_pinch (d : Q) :
  Qltb d DIST_OK_THRESHOLD = true -> Qltb d PINCH_THRESHOLD = true.
Proof.
  rewrite !Qltb_true. intros H. eapply Qlt_trans; [exact H|]. reflexivity.
Qed.

(** On integers the smoothing step is a truncated weighted mean. *)
Lemma smooth_quot (target prev : Z) :
  smooth target prev = ((3 * prev + target) ÷ 4)%Z.
Proof.
  unfold smooth, int, SMOOTHING. cbn [Qnum Qden Qplus Qmult inject_Z].
  replace (prev * Z.pos (1 * 100) + (target - prev) * 25 * 1)%Z
    with (25 * (3 * prev + target))%Z by lia.
  change (Z.pos (1 * (1 * 100))) with (25 * 4)%Z.
  apply Z.quot_mul_cancel_l; lia.
Qed.

Lemma smooth_fixed (target : Z) : smooth target target = target.
Proof.
  rewrite smooth_quot. replace (3 * target + target)%Z with (target * 4)%Z by lia.
  apply Z.quot_mul. lia.
Qed.

(** A step never moves away from the target or past it. *)
Lemma smooth_approaches (target prev : Z) :
  (Z.abs (target - smooth target prev) <= Z.abs (target - prev))%Z.
Proof.
  rewrite smooth_quot.
  pose proof (Z.quot_rem' (3 * prev + target) 4) as E.
  destruct (Z.le_ge_cases 0 (3 * prev + target)) as [Hs|Hs].
  - pose proof (Z.rem_bound_pos (3 * prev + target) 4 Hs). lia.
  - pose proof (Z.rem_bound_pos_neg (3 * prev + target) 4). lia.
Qed.

(** Four pixels or more away, a step gets strictly closer. *)
Lemma smooth_progress (target prev : Z) :
  (4 <= Z.abs (target - prev))%Z ->
  (Z.abs (target - smooth target prev) < Z.abs (target - prev))%Z.
Proof.
  intros Hfar. rewrite smooth_quot.
  pose proof (Z.quot_rem' (3 * prev + target) 4) as E.
  destruct (Z.le_ge_cases 0 (3 * prev + target)) as [Hs|Hs].
  - pose proof (Z.rem_bound_pos (3 * prev + target) 4 Hs). lia.
  - pose proof (Z.rem_bound_pos_neg (3 * prev + target) 4). lia.
Qed.

(** After as many steps as the initial distance, the pointer is within
    three pixels of the target. *)
Lemma smooth_settles (target : Z) (n : nat) (prev : Z) :
  (Z.abs (target - prev) <= 3 + Z.of_nat n)%Z ->
  (Z.abs (target - Nat.iter n (smooth target) prev) <= 3)%Z.
Proof.
  revert prev. induction n as [|n IH]; intros prev Hd.
  - simpl. lia.
  - rewrite Nat.iter_succ_r. apply IH.
    destruct (Z.lt_ge_cases (Z.abs (target - prev)) 4) as [Hnear|Hfar].
    + pose proof (smooth_approaches target prev). lia.
    + pose proof (smooth_progress target prev Hfar). lia.
Qed.

(** ** The pacing invariant under the two ways the run extends it *)

Lemma settled_insert (tr : list emission) (times : gmap string Q)
                     (key : string) (now : Q) :
  settled tr times -> default 0 (times !! key) <= now ->
  settled tr (<[key := now]> times).
Proof.
  intros Hset Hle e key' Hin Hcat.
  destruct (Hset e key' Hin Hcat) as [t [Ht Hbound]].
  exists t. split; [exact Ht|].
  destruct (decide (key = key')) as [<-|Hne].
  - rewrite lookup_insert_eq. simpl. lra.
  - rewrite lookup_insert_ne by exact Hne. exact Hbound.
Qed.

Lemma spaced_snoc_free (tr : list emission) (e : emission) :
  category (what e) = None -> spaced tr -> spaced (tr ++ [e]).
Proof.
  intros Hfree Hsp i j ei ej key Hij Hi Hj Hci Hcj.
  apply lookup_snoc_Some in Hj. destruct Hj as [[Hlt Hj]|[_ <-]].
  - apply lookup_snoc_Some in Hi. destruct Hi as [[_ Hi]|[Hi _]]; [|lia].
    exact (Hsp i j ei ej key Hij Hi Hj Hci Hcj).
  - congruence.
Qed.

Lemma settled_snoc_free (tr : list emission) (times : gmap string Q)
                        (e : emission) :
  category (what e) = None -> settled tr times -> settled (tr ++ [e]) times.
Proof.
  intros Hfree Hset e' key Hin Hcat.
  apply in_app_iff in Hin. destruct Hin as [Hin|[<-|[]]].
  - exact (Hset e' key Hin Hcat).
  - congruence.
Qed.

(** A gated call made right after its gate opened at [now]. *)
Lemma spaced_snoc_fire (tr : list emission) (times : gmap string Q)
                       (key : string) (now : Q) (c : call) :
  spaced tr -> settled tr times ->
  cooldown key <= now - default 0 (times !! key) ->
  category c = Some key ->
  spaced (tr ++ [Emission (Some now) c]).
Proof.
  intros Hsp Hset Hgate Hc i j ei ej key' Hij Hi Hj Hci Hcj.
  apply lookup_snoc_Some in Hj. destruct Hj as [[Hlt Hj]|[Hlen <-]].
  - apply lookup_snoc_Some in Hi. destruct Hi as [[_ Hi]|[Hi _]]; [|lia].
    exact (Hsp i j ei ej key' Hij Hi Hj Hci Hcj).
  - apply lookup_snoc_Some in Hi. destruct Hi as [[_ Hi]|[Hi _]]; [|lia].
    simpl in Hcj. assert (key' = key) as -> by congruence.
    apply list_elem_of_lookup_2, list_elem_of_In in Hi.
    destruct (Hset ei key Hi Hci) as [ti [Hti Hbound]].
    exists ti, now. simpl. repeat split; [exact Hti|]. lra.
Qed.

Lemma settled_snoc_fire (tr : list emission) (times : gmap string Q)
                        (key : string) (now : Q) (c : call) :
  settled tr times ->
  cooldown key <= now - default 0 (times !! key) ->
  category c = Some key ->
  settled (tr ++ [Emission (Some now) c]) (<[key := now]> times).
Proof.
  intros Hset Hgate Hc e key' Hin Hcat.
  pose proof (cooldown_nonneg key) as Hcd.
  apply in_app_iff in Hin. destruct Hin as [Hin|[<-|[]]].
  - apply (settled_insert tr times key now); [exact Hset|lra|exact Hin|exact Hcat].
  - simpl in Hcat. assert (key' = key) as -> by congruence.
    exists now. split; [reflexivity|]. rewrite lookup_insert_eq. simpl. lra.
Qed.

(** ** Triples *)

Lemma hoare_bind {A B : Type} (P : machine -> Prop) (c : M A) (k : A -> M B)
                 (R : outcome A -> machine -> Prop)
                 (S : outcome B -> machine -> Prop) :
  hoare P c R ->
  (forall a, hoare (R (Ok a)) (k a) S) ->
  (forall e m, R (Raise e) m -> S (Raise e) m) ->
  hoare P (bind c k) S.
Proof.
  intros Hc Hk Hraise m Hm. unfold bind.
  specialize (Hc m Hm). destruct (c m) as [[a|e] m']; simpl in Hc.
  - exact (Hk a m' Hc).
  - simpl. exact (Hraise e m' Hc).
Qed.

(** An invariant kept by every command of a sequence is kept by it. *)
Lemma keeps_bind {A B : Type} (I : machine -> Prop) (c : M A) (k : A -> M B) :
  hoare I c (fun _ => I) -> (forall a, hoare I (k a) (fun _ => I)) ->
  hoare I (bind c k) (fun _ => I).
Proof.
  intros Hc Hk. apply (hoare_bind I c k (fun _ => I)); auto.
Qed.

Lemma keeps_ret {A : Type} (I : machine -> Prop) (a : A) :
  hoare I (ret a) (fun _ => I).
Proof. intros m Hm. exact Hm. Qed.

Lemma keeps_eval {A : Type} (I : machine -> Prop) (o : outcome A) :
  hoare I (eval o) (fun _ => I).
Proof. intros m Hm. exact Hm. Qed.

(** The same, reading the gate as [_throttle] tests it. *)
Lemma fire_spaced (tr : list emission) (times : gmap string Q)
                  (key : string) (now : Q) (c : call) :
  category c = Some key ->
  Qgeb (now - default 0 (times !! key)) (cooldown key) = true ->
  spaced tr -> settled tr times ->
  spaced (tr ++ [Emission (Some now) c]).
Proof.
  intros Hc Hgate Hsp Hset. apply Qgeb_true in Hgate.
  exact (spaced_snoc_fire tr times key now c Hsp Hset Hgate Hc).
Qed.

Lemma fire_settled (tr : list emission) (times : gmap string Q)
                   (key : string) (now : Q) (c : call) :
  category c = Some key ->
  Qgeb (now - default 0 (times !! key)) (cooldown key) = true ->
  settled tr times ->
  settled (tr ++ [Emission (Some now) c]) (<[key := now]> times).
Proof.
  intros Hc Hgate Hset. apply Qgeb_true in Hgate.
  exact (settled_snoc_fire tr times key now c Hset Hgate Hc).
Qed.

(** The gate opened and nothing was emitted. *)
Lemma fire_settled_quiet (tr : list emission) (times : gmap string Q)
                         (key : string) (now : Q) :
  Qgeb (now - default 0 (times !! key)) (cooldown key) = true ->
  settled tr times -> settled tr (<[key := now]> times).
Proof.
  intros Hgate Hset. apply Qgeb_true in Hgate.
  pose proof (cooldown_nonneg key).
  apply settled_insert; [exact Hset | lra].
Qed.

(** ** Symbolic execution of the blocks *)

Ltac unfold_monad :=
  unfold left_click, right_click, volume_controls, keyboard_shortcuts,
    _perform_keyboard_shortcut, scrolling, mouse_move,
    _throttle, time_time_call, and_then, when, operand, bind, ret, eval, attr,
    assign, emit.

Ltac split_paths :=
  repeat match goal with
         | |- context [if ?c then _ else _] => destruct c eqn:?
         | |- context [match ?c with Some _ => _ | None => _ end] =>
             destruct c eqn:?
         end.

Ltac close_paced :=
  unfold paced;
  cbn [trace self last_times set_last_times set_prev_mouse set_scroll_mode
       set_last_index_y fst snd];
  split;
  [ first [ assumption
          | apply spaced_snoc_free; [reflexivity | assumption]
          | eapply fire_spaced; [reflexivity | eassumption | assumption
                                | eassumption ] ]
  | first [ assumption
          | apply settled_snoc_free; [reflexivity | assumption]
          | eapply fire_settled; [reflexivity | eassumption | assumption ]
          | eapply fire_settled_quiet; [eassumption | assumption ] ] ].

Ltac paced_block :=
  let m := fresh "m" in
  let Hsp := fresh "Hsp" in
  let Hset := fresh "Hset" in
  intros m [Hsp Hset]; unfold_monad; cbn; split_paths; cbn;
  try (simpl in *; discriminate); close_paced.

Section DispatcherFacts.

Variable hypot : Q -> Q -> Q.
Variable clock : nat -> Q.

Lemma mouse_move_paced (index_tip : landmark) :
  hoare paced (mouse_move index_tip) (fun _ => paced).
Proof. paced_block. Qed.

Lemma left_click_paced (index_tip thumb_tip : landmark) :
  hoare paced (left_click hypot clock index_tip thumb_tip) (fun _ => paced).
Proof. paced_block. Qed.

Lemma right_click_paced (g : gesture) :
  hoare paced (right_click clock g) (fun _ => paced).
Proof. paced_block. Qed.

Lemma volume_controls_paced (g : gesture) :
  hoare paced (volume_controls clock g) (fun _ => paced).
Proof. destruct g; paced_block. Qed.

Lemma keyboard_shortcuts_paced (g : gesture) :
  hoare paced (keyboard_shortcuts clock g) (fun _ => paced).
Proof. destruct g; paced_block. Qed.

Lemma scrolling_paced (g : gesture) (index_tip : landmark) :
  hoare paced (scrolling clock g index_tip) (fun _ => paced).
Proof. paced_block. Qed.

Lemma loop_body_paced (f : frame) :
  hoare paced (loop_body hypot clock f) (fun _ => paced).
Proof.
  destruct f as [lm|]; [|apply keeps_ret].
  unfold loop_body.
  apply keeps_bind; [apply keeps_eval|]. intros g.
  apply keeps_bind; [apply keeps_eval|]. intros index_tip.
  apply keeps_bind; [apply keeps_eval|]. intros thumb_tip.
  apply keeps_bind; [apply mouse_move_paced|]. intros _.
  apply keeps_bind; [apply left_click_paced|]. intros _.
  apply keeps_bind; [apply right_click_paced|]. intros _.
  apply keeps_bind; [apply volume_controls_paced|]. intros _.
  apply keeps_bind; [apply keyboard_shortcuts_paced|]. intros _.
  apply scrolling_paced.
Qed.

Lemma while_running_paced (frames : list frame) :
  hoare paced (while_running hypot clock frames) (fun _ => paced).
Proof.
  induction frames as [|f rest IH]; [apply keeps_ret|].
  cbn [while_running]. apply keeps_bind; [apply loop_body_paced|].
  intros _. exact IH.
Qed.

Lemma start_paced (a : GestureApp) : paced (start a).
Proof.
  split.
  - intros i j ei ej key _ Hi. cbn [start trace] in Hi.
    rewrite lookup_nil in Hi. discriminate.
  - intros e key [].
Qed.

End DispatcherFacts.

(** ** The cooldown gate *)

Section CooldownGate.

Variable hypot : Q -> Q -> Q.
Variable clock : nat -> Q.

(** [_throttle], path by path. *)
Lemma throttle_run (key : string) (cd : Q) (m : machine) :
  let now := clock (reads m) in
  _throttle clock key cd m =
    if Qgeb (now - last_fire key (self m)) cd
    then (Ok true,
          {| self := set_last_times (<[key := now]> (last_times (self m))) (self m);
             reads := S (reads m); latest_now := Some now; trace := trace m |})
    else (Ok false,
          {| self := self m; reads := S (reads m); latest_now := Some now;
             trace := trace m |}).
Proof.
  unfold _throttle, time_time_call, bind, attr, assign, ret, last_fire. cbn.
  destruct (Qgeb _ cd); reflexivity.
Qed.

(** C2: the gate of a category opens exactly when
    [now - last_times[key] >= cooldown]; on opening it sets
    [last_times[key]] to [now], otherwise it leaves [last_times] alone; it
    never changes the entry of another key and emits nothing itself; and
    in the emissions of any run of the loop, two calls of the same
    category are stamped at least that category's cooldown apart. *)
Theorem cooldown_gate :
  (forall (key : string) (cd : Q) (m : machine),
     let now := clock (reads m) in
     let m' := after (_throttle clock key cd) m in
     ((_throttle clock key cd m).1 = Ok true <->
        cd <= now - last_fire key (self m)) /\
     ((_throttle clock key cd m).1 = Ok true ->
        last_times (self m') = <[key := now]> (last_times (self m))) /\
     ((_throttle clock key cd m).1 <> Ok true ->
        (_throttle clock key cd m).1 = Ok false /\
        last_times (self m') = last_times (self m)) /\
     (forall key', key' <> key ->
        last_times (self m') !! key' = last_times (self m) !! key') /\
     trace m' = trace m) /\
  (forall (a : GestureApp) (frames : list frame),
     spaced (trace (after (while_running hypot clock frames) (start a)))).
Proof.
  split.
  - intros key cd m now m'. subst m'. unfold after.
    pose proof (throttle_run key cd m) as Hrun. cbv zeta in Hrun. fold now in Hrun.
    rewrite Hrun. destruct (Qgeb (now - last_fire key (self m)) cd) eqn:Hgate; cbn.
    + apply Qgeb_true in Hgate.
      split; [tauto|]. split; [reflexivity|]. split; [congruence|].
      split; [|reflexivity].
      intros key' Hne. apply lookup_insert_ne. congruence.
    + assert (~ cd <= now - last_fire key (self m)) as Hclosed.
      { intros Hle. apply Qgeb_true in Hle. congruence. }
      split; [split; [discriminate | contradiction]|].
      split; [discriminate|]. split; [split; reflexivity|].
      split; reflexivity.
  - intros a frames.
    exact (proj1 (while_running_paced hypot clock frames (start a) (start_paced a))).
Qed.

(** C5: the pinch left-click and the L-sign right-click go through the
    one ["click"] gate: in the emissions of any run, two calls that are
    each a left or a right click are stamped at least the click cooldown
    apart, so after either has fired neither fires again sooner. *)
Theorem clicks_share_one_gate (a : GestureApp) (frames : list frame)
                              (i j : nat) (ei ej : emission) :
  let tr := trace (after (while_running hypot clock frames) (start a)) in
  (i < j)%nat -> tr !! i = Some ei -> tr !! j = Some ej ->
  what ei = click \/ what ei = rightClick ->
  what ej = click \/ what ej = rightClick ->
  exists ti tj, at_time ei = Some ti /\ at_time ej = Some tj /\
                COOLDOWN_MED <= tj - ti /\ ~ tj - ti < COOLDOWN_MED.
Proof.
  intros tr Hij Hi Hj Hei Hej.
  pose proof (proj1 (while_running_paced hypot clock frames (start a)
                       (start_paced a))) as Hsp.
  assert (category (what ei) = Some "click"%string) as Hci
    by (destruct Hei as [-> | ->]; reflexivity).
  assert (category (what ej) = Some "click"%string) as Hcj
    by (destruct Hej as [-> | ->]; reflexivity).
  destruct (Hsp i j ei ej "click"%string Hij Hi Hj Hci Hcj) as [ti [tj [Hti [Htj Hgap]]]].
  exists ti, tj. repeat split; auto.
  apply Qle_not_lt. exact Hgap.
Qed.

End CooldownGate.

(** ** What each block does to the object *)

Ltac frame_goal :=
  split; [reflexivity|]; split; [reflexivity|]; split;
  [ first [ rewrite lookup_insert_ne by discriminate; reflexivity
          | reflexivity ]
  | first [ exists []; split; [rewrite app_nil_r; reflexivity | constructor]
          | eexists [_]; split;
            [reflexivity | repeat constructor; discriminate] ] ].

Ltac frame_block :=
  intros; unfold after, geometry, last_fire; unfold_monad; cbn; split_paths; cbn;
  try (simpl in *; discriminate); frame_goal.

Section Blocks.

Variable hypot : Q -> Q -> Q.
Variable clock : nat -> Q.

(** The gated blocks between the pointer move and the scroll block never
    raise, leave everything but [last_times] alone, leave the scroll
    gate's entry alone, and only add emissions, none of them a scroll. *)
Lemma left_click_frame (index_tip thumb_tip : landmark) (m : machine) :
  (left_click hypot clock index_tip thumb_tip m).1 = Ok tt /\
  geometry (self (after (left_click hypot clock index_tip thumb_tip) m)) = geometry (self m) /\
  last_fire "scroll"
            (self (after (left_click hypot clock index_tip thumb_tip) m))
    = last_fire "scroll" (self m) /\
  exists more,
    trace (after (left_click hypot clock index_tip thumb_tip) m) = trace m ++ more /\
    Forall (fun e => category (what e) <> Some "scroll"%string) more.
Proof. frame_block. Qed.

Lemma right_click_frame (g : gesture) (m : machine) :
  (right_click clock g m).1 = Ok tt /\
  geometry (self (after (right_click clock g) m)) = geometry (self m) /\
  last_fire "scroll" (self (after (right_click clock g) m)) = last_fire "scroll" (self m) /\
  exists more,
    trace (after (right_click clock g) m) = trace m ++ more /\
    Forall (fun e => category (what e) <> Some "scroll"%string) more.
Proof. frame_block. Qed.

Lemma volume_controls_frame (g : gesture) (m : machine) :
  (volume_controls clock g m).1 = Ok tt /\
  geometry (self (after (volume_controls clock g) m)) = geometry (self m) /\
  last_fire "scroll" (self (after (volume_controls clock g) m)) = last_fire "scroll" (self m) /\
  exists more,
    trace (after (volume_controls clock g) m) = trace m ++ more /\
    Forall (fun e => category (what e) <> Some "scroll"%string) more.
Proof. destruct g; frame_block. Qed.

Lemma keyboard_shortcuts_frame (g : gesture) (m : machine) :
  (keyboard_shortcuts clock g m).1 = Ok tt /\
  geometry (self (after (keyboard_shortcuts clock g) m)) = geometry (self m) /\
  last_fire "scroll" (self (after (keyboard_shortcuts clock g) m)) = last_fire "scroll" (self m) /\
  exists more,
    trace (after (keyboard_shortcuts clock g) m) = trace m ++ more /\
    Forall (fun e => category (what e) <> Some "scroll"%string) more.
Proof. destruct g; frame_block. Qed.

(** The pointer block, when the two coordinates are both set or both
    unset. *)
Lemma mouse_move_run (index_tip : landmark) (m : machine) :
  Bool.eqb (is_None (prev_mouse_x (self m))) (is_None (prev_mouse_y (self m)))
    = true ->
  let tx := int (x index_tip * inject_Z (screen_w (self m))) in
  let ty := int (y index_tip * inject_Z (screen_h (self m))) in
  let nx := smooth tx (default tx (prev_mouse_x (self m))) in
  let ny := smooth ty (default ty (prev_mouse_y (self m))) in
  mouse_move index_tip m =
    (Ok tt,
     {| self := set_prev_mouse (Some nx) (Some ny) (self m);
        reads := reads m; latest_now := latest_now m;
        trace := trace m ++ [Emission (latest_now m) (moveTo nx ny)] |}).
Proof.
  destruct m as [[px py w h times mode base] r l t]. cbn [self prev_mouse_x prev_mouse_y].
  intros Hboth. unfold_monad.
  destruct px as [px|], py as [py|]; try discriminate; reflexivity.
Qed.

(** The scroll block on a gesture other than OPEN_PALM. *)
Lemma scrolling_exit_run (g : gesture) (index_tip : landmark) (m : machine) :
  g <> OPEN_PALM ->
  scrolling clock g index_tip m =
    (Ok tt,
     {| self := if scroll_mode (self m)
                then set_last_index_y None (set_scroll_mode false (self m))
                else self m;
        reads := reads m; latest_now := latest_now m; trace := trace m |}).
Proof.
  destruct m as [[px py w h times mode base] r l t].
  intros Hg. unfold_monad.
  destruct g; try contradiction; destruct mode; reflexivity.
Qed.

(** The scroll block entering scroll mode. *)
Lemma scrolling_enter_run (index_tip : landmark) (m : machine) :
  scroll_mode (self m) = false ->
  scrolling clock OPEN_PALM index_tip m =
    (Ok tt,
     {| self := set_last_index_y (Some (y index_tip))
                  (set_scroll_mode true (self m));
        reads := reads m; latest_now := latest_now m; trace := trace m |}).
Proof.
  destruct m as [[px py w h times mode base] r l t]. cbn [self scroll_mode].
  intros ->. reflexivity.
Qed.

(** The scroll block in scroll mode. *)
Lemma scrolling_loop_run (index_tip : landmark) (m : machine) (base : Q) :
  scroll_mode (self m) = true -> last_index_y (self m) = Some base ->
  let dy := base - y index_tip in
  let now := clock (reads m) in
  let amount := int (dy * SCROLL_SENSITIVITY) in
  let moved := Qltb SCROLL_MIN_DELTA (Qabs dy) in
  let gate := Qgeb (now - last_fire "scroll" (self m)) COOLDOWN_SCROLL in
  scrolling clock OPEN_PALM index_tip m =
    (Ok tt,
     {| self :=
          set_last_index_y (Some (base * 0.85 + y index_tip * 0.15))
            (if moved && gate
             then set_last_times (<["scroll"%string := now]> (last_times (self m)))
                                 (self m)
             else self m);
        reads := if moved then S (reads m) else reads m;
        latest_now := if moved then Some now else latest_now m;
        trace := trace m ++
                 (if moved && gate && negb (amount =? 0)%Z
                  then [Emission (Some now) (scroll amount)] else []) |}).
Proof.
  destruct m as [[px py w h times mode base0] r l t].
  cbn [self scroll_mode last_index_y]. intros -> ->.
  unfold_monad. unfold last_fire.
  cbn -[Qabs Qminus Qplus Qmult Qltb Qgeb int].
  destruct (Qltb SCROLL_MIN_DELTA (Qabs (base - y index_tip)));
    cbn -[Qabs Qminus Qplus Qmult Qltb Qgeb int];
    [|rewrite app_nil_r; reflexivity].
  destruct (Qgeb _ COOLDOWN_SCROLL);
    cbn -[Qabs Qminus Qplus Qmult Qltb Qgeb int];
    [|rewrite app_nil_r; reflexivity].
  destruct (int ((base - y index_tip) * SCROLL_SENSITIVITY) =? 0)%Z;
    cbn -[Qabs Qminus Qplus Qmult Qltb Qgeb int];
    [rewrite app_nil_r|]; reflexivity.
Qed.

End Blocks.

(** ** One frame with a hand *)

Lemma bind_ok {A B : Type} (c : M A) (k : A -> M B) (m : machine) (a : A) :
  (c m).1 = Ok a -> bind c k m = k a (after c m).
Proof.
  unfold bind, after. destruct (c m) as [[a'|e] m']; simpl; intros [= ->].
  reflexivity.
Qed.

Section Frames.

Variable hypot : Q -> Q -> Q.
Variable clock : nat -> Q.

(** The body on a classified hand: the pointer block, the four gated
    blocks, which touch neither the pointer, nor the scroll state, nor the
    scroll gate, and last the scroll block. *)
Lemma loop_body_steps (lm : list landmark) (g : gesture)
                      (index_tip thumb_tip : landmark) (m : machine) :
  classify hypot lm = Ok g ->
  lm !! 8%nat = Some index_tip -> lm !! 4%nat = Some thumb_tip ->
  (mouse_move index_tip m).1 = Ok tt ->
  let m1 := after (mouse_move index_tip) m in
  let m2 := after (left_click hypot clock index_tip thumb_tip) m1 in
  let m3 := after (right_click clock g) m2 in
  let m4 := after (volume_controls clock g) m3 in
  let m5 := after (keyboard_shortcuts clock g) m4 in
  loop_body hypot clock (Some lm) m = scrolling clock g index_tip m5 /\
  geometry (self m5) = geometry (self m1) /\
  last_fire "scroll" (self m5) = last_fire "scroll" (self m1) /\
  exists more,
    trace m5 = trace m1 ++ more /\
    Forall (fun e => category (what e) <> Some "scroll"%string) more.
Proof.
  intros Hg H8 H4 Hmove m1 m2 m3 m4 m5.
  destruct (left_click_frame hypot clock index_tip thumb_tip m1)
    as [Ho2 [Hg2 [Hf2 [k2 [Ht2 Hk2]]]]].
  fold m2 in Hg2, Hf2, Ht2.
  destruct (right_click_frame clock g m2) as [Ho3 [Hg3 [Hf3 [k3 [Ht3 Hk3]]]]].
  fold m3 in Hg3, Hf3, Ht3.
  destruct (volume_controls_frame clock g m3) as [Ho4 [Hg4 [Hf4 [k4 [Ht4 Hk4]]]]].
  fold m4 in Hg4, Hf4, Ht4.
  destruct (keyboard_shortcuts_frame clock g m4)
    as [Ho5 [Hg5 [Hf5 [k5 [Ht5 Hk5]]]]].
  fold m5 in Hg5, Hf5, Ht5.
  split; [|split; [|split]].
  - unfold loop_body, getitem. rewrite Hg, H8, H4.
    rewrite (bind_ok _ _ m g) by reflexivity.
    rewrite (bind_ok _ _ _ index_tip) by reflexivity.
    rewrite (bind_ok _ _ _ thumb_tip) by reflexivity.
    unfold after at 1 2 3. cbn [eval snd].
    rewrite (bind_ok _ _ m tt) by exact Hmove. fold m1.
    rewrite (bind_ok _ _ m1 tt) by exact Ho2. fold m2.
    rewrite (bind_ok _ _ m2 tt) by exact Ho3. fold m3.
    rewrite (bind_ok _ _ m3 tt) by exact Ho4. fold m4.
    rewrite (bind_ok _ _ m4 tt) by exact Ho5. fold m5.
    reflexivity.
  - congruence.
  - congruence.
  - exists (k2 ++ k3 ++ k4 ++ k5). split.
    + rewrite Ht5, Ht4, Ht3, Ht2. rewrite <- !app_assoc. reflexivity.
    + repeat (apply Forall_app; split); assumption.
Qed.

End Frames.

Section FrameEffects.

Variable hypot : Q -> Q -> Q.
Variable clock : nat -> Q.

(** The scroll block follows the scroll state machine, touches nothing
    else of the geometry, and raises only when asked to scroll without a
    baseline. *)
Lemma scrolling_geometry (g : gesture) (index_tip : landmark) (m : machine) :
  implb (scroll_mode (self m)) (negb (is_None (last_index_y (self m)))) = true ->
  let r := scrolling clock g index_tip m in
  r.1 = Ok tt /\
  prev_mouse_x (self r.2) = prev_mouse_x (self m) /\
  prev_mouse_y (self r.2) = prev_mouse_y (self m) /\
  screen_w (self r.2) = screen_w (self m) /\
  screen_h (self r.2) = screen_h (self m) /\
  (scroll_mode (self r.2), last_index_y (self r.2))
    = scroll_step g (y index_tip) (scroll_mode (self m)) (last_index_y (self m)) /\
  trace m `prefix_of` trace r.2.
Proof.
  destruct m as [[px py w h times mode base] r l t].
  cbn [self scroll_mode last_index_y]. intros Hok.
  destruct mode, base as [base|]; try discriminate Hok;
    destruct g; unfold_monad; cbn -[Qabs Qminus Qplus Qmult Qltb Qgeb int];
    split_paths; cbn -[Qabs Qminus Qplus Qmult Qltb Qgeb int];
    repeat split;
    first [ reflexivity | apply prefix_app_r; reflexivity ].
Qed.

(** One frame with a hand of 21 landmarks, on a consistent object: the
    body returns normally, the object stays consistent, each pointer
    coordinate takes one smoothing step toward the target (from the target
    itself when there is no previous position), that position is the
    frame's first emission, and the scroll state takes one step of its
    machine. *)
Lemma loop_body_effect (lm : list landmark) (g : gesture)
                       (index_tip : landmark) (m : machine) :
  classify hypot lm = Ok g -> lm !! 8%nat = Some index_tip ->
  consistent (self m) = true ->
  let tx := int (x index_tip * inject_Z (screen_w (self m))) in
  let ty := int (y index_tip * inject_Z (screen_h (self m))) in
  let nx := smooth tx (default tx (prev_mouse_x (self m))) in
  let ny := smooth ty (default ty (prev_mouse_y (self m))) in
  let r := loop_body hypot clock (Some lm) m in
  r.1 = Ok tt /\
  consistent (self r.2) = true /\
  screen_w (self r.2) = screen_w (self m) /\
  screen_h (self r.2) = screen_h (self m) /\
  prev_mouse_x (self r.2) = Some nx /\
  prev_mouse_y (self r.2) = Some ny /\
  (scroll_mode (self r.2), last_index_y (self r.2))
    = scroll_step g (y index_tip) (scroll_mode (self m)) (last_index_y (self m)) /\
  (trace m ++ [Emission (latest_now m) (moveTo nx ny)]) `prefix_of` trace r.2.
Proof.
  intros Hg H8 Hcons tx ty nx ny r.
  unfold consistent in Hcons. apply andb_true_iff in Hcons.
  destruct Hcons as [Hboth Hscroll].
  assert (exists thumb_tip, lm !! 4%nat = Some thumb_tip) as [thumb_tip H4].
  { destruct (lm !! 4%nat) as [t4|] eqn:E; [eauto|].
    unfold classify, getitem in Hg. rewrite E in Hg. discriminate. }
  pose proof (mouse_move_run index_tip m Hboth) as Hmove. cbv zeta in Hmove.
  fold tx ty in Hmove. fold nx ny in Hmove.
  assert ((mouse_move index_tip m).1 = Ok tt) as Hok by (rewrite Hmove; reflexivity).
  pose proof (loop_body_steps hypot clock lm g index_tip thumb_tip m Hg H8 H4 Hok)
    as Hsteps.
  cbv zeta in Hsteps.
  assert (after (mouse_move index_tip) m =
          {| self := set_prev_mouse (Some nx) (Some ny) (self m);
             reads := reads m; latest_now := latest_now m;
             trace := trace m ++ [Emission (latest_now m) (moveTo nx ny)] |})
    as Hm1 by (unfold after; rewrite Hmove; reflexivity).
  rewrite Hm1 in Hsteps. destruct Hsteps as [Hbody [Hgeo [_ [more [Htr _]]]]].
  cbn [self trace] in Hgeo, Htr.
  subst r. rewrite Hbody. clear Hbody.
  set (m5 := after (keyboard_shortcuts clock g) _) in *.
  unfold geometry in Hgeo. cbn [set_prev_mouse prev_mouse_x prev_mouse_y screen_w
                                screen_h scroll_mode last_index_y] in Hgeo.
  injection Hgeo as Hpx Hpy Hw Hh Hmode Hbase.
  assert (implb (scroll_mode (self m5)) (negb (is_None (last_index_y (self m5))))
          = true) as Hscroll5 by (rewrite Hmode, Hbase; exact Hscroll).
  destruct (scrolling_geometry g index_tip m5 Hscroll5)
    as [Ho [Hx [Hy [Hsw [Hsh [Hstep Hpre]]]]]].
  split; [exact Ho|].
  split.
  { unfold consistent. rewrite Hx, Hy, Hpx, Hpy. cbn [is_None Bool.eqb andb].
    apply (f_equal fst) in Hstep as Hm'. apply (f_equal snd) in Hstep as Hb'.
    cbn [fst snd] in Hm', Hb'. rewrite Hm', Hb'.
    destruct g, (scroll_mode (self m5)), (last_index_y (self m5));
      try reflexivity; discriminate Hscroll5. }
  split; [congruence|]. split; [congruence|].
  split; [congruence|]. split; [congruence|].
  split; [rewrite Hstep, Hmode, Hbase; reflexivity|].
  etransitivity; [|exact Hpre]. rewrite Htr. apply prefix_app_r. reflexivity.
Qed.

End FrameEffects.

(** ** The same hand, frame after frame *)

Section Repeated.

Variable hypot : Q -> Q -> Q.
Variable clock : nat -> Q.

(** Feeding one hand [n] times to a consistent object whose pointer is
    set: the loop does not raise, and each pointer coordinate has taken
    [n] smoothing steps toward the (constant) target. *)
Lemma while_running_repeat (lm : list landmark) (index_tip : landmark)
                           (n : nat) (m : machine) (px py : Z) :
  length lm = 21%nat -> lm !! 8%nat = Some index_tip ->
  consistent (self m) = true ->
  prev_mouse_x (self m) = Some px -> prev_mouse_y (self m) = Some py ->
  let tx := int (x index_tip * inject_Z (screen_w (self m))) in
  let ty := int (y index_tip * inject_Z (screen_h (self m))) in
  let r := while_running hypot clock (repeat (Some lm) n) m in
  r.1 = Ok tt /\
  prev_mouse_x (self r.2) = Some (Nat.iter n (smooth tx) px) /\
  prev_mouse_y (self r.2) = Some (Nat.iter n (smooth ty) py).
Proof.
  intros Hlen H8. revert m px py.
  induction n as [|n IH]; intros m px py Hcons Hpx Hpy tx ty r.
  - subst r. cbn. auto.
  - destruct (classify_returns_label hypot lm Hlen) as [g [Hg _]].
    destruct (loop_body_effect hypot clock lm g index_tip m Hg H8 Hcons)
      as [Ho [Hcons' [Hw [Hh [Hx [Hy _]]]]]].
    rewrite Hpx in Hx. rewrite Hpy in Hy. cbn [default] in Hx, Hy.
    fold tx in Hx. fold ty in Hy.
    subst r. cbn [repeat while_running].
    rewrite (bind_ok _ _ m tt) by exact Ho.
    specialize (IH _ _ _ Hcons' Hx Hy). cbv zeta in IH.
    unfold after. rewrite Hw, Hh in IH. fold tx ty in IH.
    rewrite !Nat.iter_succ_r. exact IH.
Qed.

End Repeated.

(** Iterated smoothing never moves away from the target. *)
Lemma smooth_iter_approaches (target : Z) (n : nat) (prev : Z) :
  (Z.abs (target - Nat.iter n (smooth target) prev) <= Z.abs (target - prev))%Z.
Proof.
  revert prev. induction n as [|n IH]; intros prev.
  - simpl. lia.
  - rewrite Nat.iter_succ_r. specialize (IH (smooth target prev)).
    pose proof (smooth_approaches target prev). lia.
Qed.

(** Three pixels below the target (and anywhere the truncated mean returns
    its argument) the pointer stays where it is. *)
Lemma smooth_iter_stuck (target prev : Z) (n : nat) :
  smooth target prev = prev -> Nat.iter n (smooth target) prev = prev.
Proof.
  intros Hfix. induction n as [|n IH]; [reflexivity|].
  rewrite Nat.iter_succ_r, Hfix. exact IH.
Qed.

(** ** Truncation keeps the sign *)

Lemma int_pos (q : Q) : (0 < int q)%Z -> 0 < q.
Proof.
  destruct q as [n d]. unfold int, Qlt. cbn [Qnum Qden]. intros H.
  destruct (Z.lt_ge_cases 0 n) as [Hn|Hn]; [lia|].
  exfalso. pose proof (Z.quot_opp_l n (Z.pos d) ltac:(lia)) as E.
  pose proof (Z.quot_pos (- n) (Z.pos d) ltac:(lia) ltac:(lia)). lia.
Qed.

Lemma int_neg (q : Q) : (int q < 0)%Z -> q < 0.
Proof.
  destruct q as [n d]. unfold int, Qlt. cbn [Qnum Qden]. intros H.
  destruct (Z.lt_ge_cases n 0) as [Hn|Hn]; [lia|].
  exfalso. pose proof (Z.quot_pos n (Z.pos d) Hn ltac:(lia)). lia.
Qed.

(** ** Properties of the frame loop *)

Section LoopClaims.

Variable hypot : Q -> Q -> Q.
Variable clock : nat -> Q.

(** The pinch block when the pinch is closed and the click gate open. *)
Lemma left_click_fires (index_tip thumb_tip : landmark) (m : machine) :
  Qltb (hypot (x thumb_tip - x index_tip) (y thumb_tip - y index_tip))
       PINCH_THRESHOLD = true ->
  Qgeb (clock (reads m) - last_fire "click" (self m)) COOLDOWN_MED = true ->
  left_click hypot clock index_tip thumb_tip m =
    (Ok tt,
     {| self := set_last_times
                  (<["click"%string := clock (reads m)]> (last_times (self m)))
                  (self m);
        reads := S (reads m); latest_now := Some (clock (reads m));
        trace := trace m ++ [Emission (Some (clock (reads m))) click] |}).
Proof.
  intros Hpinch Hgate. unfold left_click. cbn [fst snd].
  rewrite Hpinch. unfold and_then.
  rewrite (bind_ok _ _ m true)
    by (rewrite throttle_run; cbv zeta; rewrite Hgate; reflexivity).
  unfold after. rewrite throttle_run. cbv zeta. rewrite Hgate. reflexivity.
Qed.

(** The shortcut block on OK_SIGN when the keyboard gate is open. *)
Lemma copy_fires (m : machine) :
  Qgeb (clock (reads m) - last_fire "keyboard" (self m)) COOLDOWN_MED = true ->
  keyboard_shortcuts clock OK_SIGN m =
    (Ok tt,
     {| self := set_last_times
                  (<["keyboard"%string := clock (reads m)]> (last_times (self m)))
                  (self m);
        reads := S (reads m); latest_now := Some (clock (reads m));
        trace := trace m ++ [Emission (Some (clock (reads m))) (hotkey "ctrl" "c")] |}).
Proof.
  intros Hgate. unfold keyboard_shortcuts, _perform_keyboard_shortcut.
  cbn [gesture_eqb orb when].
  rewrite (bind_ok _ _ m true)
    by (rewrite throttle_run; cbv zeta; rewrite Hgate; reflexivity).
  unfold after. rewrite throttle_run. cbv zeta. rewrite Hgate. reflexivity.
Qed.

(** A hand classified OK_SIGN has its thumb and index tips, closer than
    the OK-sign threshold. *)
Lemma ok_sign_distance (lm : list landmark) :
  classify hypot lm = Ok OK_SIGN ->
  exists index_tip thumb_tip,
    lm !! 8%nat = Some index_tip /\ lm !! 4%nat = Some thumb_tip /\
    Qltb (hypot (x thumb_tip - x index_tip) (y thumb_tip - y index_tip))
         DIST_OK_THRESHOLD = true.
Proof.
  intros Hc.
  destruct (finger_states hypot lm) as [s|] eqn:Hs.
  - rewrite (classify_first_match hypot lm s Hs) in Hc.
    unfold finger_states in Hs.
    destruct (lm !! 4%nat) as [t4|]; [|discriminate].
    destruct (lm !! 3%nat) as [t3|]; [|discriminate].
    destruct (lm !! 8%nat) as [i8|]; [|discriminate].
    destruct (lm !! 6%nat), (lm !! 12%nat), (lm !! 10%nat), (lm !! 16%nat),
             (lm !! 14%nat), (lm !! 20%nat), (lm !! 18%nat); try discriminate.
    injection Hs as <-. exists i8, t4. split; [reflexivity|]. split; [reflexivity|].
    cbn [first_match priority_rules] in Hc.
    unfold rule_ok_sign in Hc. cbn [pinch_distance] in Hc.
    destruct (Qltb (hypot (x t4 - x i8) (y t4 - y i8)) DIST_OK_THRESHOLD);
      [reflexivity|].
    exfalso.
    repeat match type of Hc with
           | context [if ?c then _ else _] => destruct c
           end; discriminate Hc.
  - exfalso. unfold finger_states in Hs. unfold classify, getitem in Hc.
    repeat match type of Hs with
           | context [match ?o with Some _ => _ | None => _ end] =>
               destruct o; try discriminate Hc
           end; discriminate.
Qed.

(** C10: a hand classified OK_SIGN has its thumb and index tips closer
    than the OK-sign threshold, hence closer than the pinch threshold; so
    on such a frame, when the click gate and then the keyboard gate are
    open, the body emits, after the pointer move, a left click and the
    Copy shortcut, and nothing else. *)
Theorem ok_sign_clicks_and_copies (lm : list landmark) (m : machine) :
  classify hypot lm = Ok OK_SIGN ->
  consistent (self m) = true ->
  exists index_tip thumb_tip,
    lm !! 8%nat = Some index_tip /\ lm !! 4%nat = Some thumb_tip /\
    Qltb (hypot (x thumb_tip - x index_tip) (y thumb_tip - y index_tip))
         PINCH_THRESHOLD = true /\
    (let t0 := clock (reads m) in
     let t1 := clock (S (reads m)) in
     COOLDOWN_MED <= t0 - last_fire "click" (self m) ->
     COOLDOWN_MED <= t1 - last_fire "keyboard" (self m) ->
     let r := loop_body hypot clock (Some lm) m in
     r.1 = Ok tt /\
     exists px py,
       trace r.2 = trace m ++ [Emission (latest_now m) (moveTo px py);
                               Emission (Some t0) click;
                               Emission (Some t1) (hotkey "ctrl" "c")]).
Proof.
  intros Hg Hcons.
  destruct (ok_sign_distance lm Hg) as [index_tip [thumb_tip [H8 [H4 Hok]]]].
  exists index_tip, thumb_tip. split; [exact H8|]. split; [exact H4|].
  pose proof (ok_distance_is_pinch _ Hok) as Hpinch. split; [exact Hpinch|].
  intros t0 t1 Hclick Hkey r.
  apply Qgeb_true in Hclick. apply Qgeb_true in Hkey.
  unfold consistent in Hcons. apply andb_true_iff in Hcons.
  destruct Hcons as [Hboth _].
  pose proof (mouse_move_run index_tip m Hboth) as Hmove. cbv zeta in Hmove.
  set (nx := smooth _ _) in Hmove. set (ny := smooth _ _) in Hmove.
  assert ((mouse_move index_tip m).1 = Ok tt) as Hmok
    by (rewrite Hmove; reflexivity).
  destruct (loop_body_steps hypot clock lm OK_SIGN index_tip thumb_tip m
              Hg H8 H4 Hmok) as [Hbody _].
  subst r. rewrite Hbody. clear Hbody.
  rewrite scrolling_exit_run by discriminate. cbn [fst snd trace].
  split; [reflexivity|]. exists nx, ny.
  unfold after at 5. rewrite Hmove. cbn [snd].
  unfold after at 4. rewrite left_click_fires by assumption. cbn [snd reads self trace].
  unfold after at 3. cbn [right_click gesture_eqb and_then bind ret when snd].
  unfold after at 2. cbn [volume_controls gesture_eqb and_then bind ret when snd].
  unfold after. rewrite copy_fires.
  2:{ cbn [reads self]. unfold last_fire in *.
      cbn [last_times set_last_times set_prev_mouse].
      rewrite lookup_insert_ne by discriminate. exact Hkey. }
  cbn [snd trace reads]. rewrite <- !app_assoc. reflexivity.
Qed.

(** The pinch block, path by path. *)
Lemma left_click_run (index_tip thumb_tip : landmark) (m : machine) :
  let pinch :=
    Qltb (hypot (x thumb_tip - x index_tip) (y thumb_tip - y index_tip))
         PINCH_THRESHOLD in
  let now := clock (reads m) in
  let gate := Qgeb (now - last_fire "click" (self m)) COOLDOWN_MED in
  left_click hypot clock index_tip thumb_tip m =
    (Ok tt,
     if pinch then
       {| self := if gate
                  then set_last_times
                         (<["click"%string := now]> (last_times (self m))) (self m)
                  else self m;
          reads := S (reads m); latest_now := Some now;
          trace := trace m ++ (if gate then [Emission (Some now) click] else []) |}
     else m).
Proof.
  intros pinch now gate. unfold left_click. cbn [fst snd]. fold pinch.
  destruct pinch; [|reflexivity].
  unfold and_then, bind. rewrite throttle_run. cbv zeta. fold now gate.
  destruct gate; cbn [when emit ret]; [reflexivity|].
  rewrite app_nil_r. reflexivity.
Qed.

(** C6, as the code has it: on a frame classified OPEN_PALM while in
    scroll mode, with [dy = last_index_y - index_tip.y], the body emits a
    scroll, after the frame's other emissions, exactly when
    [|dy| > SCROLL_MIN_DELTA], the scroll gate is open at the clock reading
    it takes ([now]) and the amount is not zero; the amount is
    [int(dy * SCROLL_SENSITIVITY)], the product truncated toward zero,
    which has the sign of [dy]; and whether or not a scroll was emitted
    the baseline becomes [last_index_y * 0.85 + index_tip.y * 0.15]. *)
Theorem scroll_amount_is_truncated (lm : list landmark)
    (index_tip thumb_tip : landmark) (m : machine) (base : Q) :
  classify hypot lm = Ok OPEN_PALM ->
  lm !! 8%nat = Some index_tip -> lm !! 4%nat = Some thumb_tip ->
  consistent (self m) = true ->
  scroll_mode (self m) = true -> last_index_y (self m) = Some base ->
  let dy := base - y index_tip in
  let amount := int (dy * SCROLL_SENSITIVITY) in
  let pinch :=
    Qltb (hypot (x thumb_tip - x index_tip) (y thumb_tip - y index_tip))
         PINCH_THRESHOLD in
  let now := clock (if pinch then S (reads m) else reads m) in
  let fires :=
    Qltb SCROLL_MIN_DELTA (Qabs dy)
    && Qgeb (now - last_fire "scroll" (self m)) COOLDOWN_SCROLL
    && negb (amount =? 0)%Z in
  let r := loop_body hypot clock (Some lm) m in
  r.1 = Ok tt /\
  (exists earlier,
     Forall (fun e => category (what e) <> Some "scroll"%string) earlier /\
     trace r.2 = trace m ++ earlier ++
                 (if fires then [Emission (Some now) (scroll amount)] else [])) /\
  ((0 < amount)%Z -> 0 < dy) /\ ((amount < 0)%Z -> dy < 0) /\
  scroll_mode (self r.2) = true /\
  last_index_y (self r.2) = Some (base * 0.85 + y index_tip * 0.15).
Proof.
  intros Hg H8 H4 Hcons Hmode Hbase dy amount pinch now fires r.
  unfold consistent in Hcons. apply andb_true_iff in Hcons.
  destruct Hcons as [Hboth _].
  pose proof (mouse_move_run index_tip m Hboth) as Hmove. cbv zeta in Hmove.
  set (nx := smooth _ _) in Hmove. set (ny := smooth _ _) in Hmove.
  assert ((mouse_move index_tip m).1 = Ok tt) as Hmok
    by (rewrite Hmove; reflexivity).
  pose proof (loop_body_steps hypot clock lm OPEN_PALM index_tip thumb_tip m
                Hg H8 H4 Hmok) as Hsteps.
  cbv zeta in Hsteps. destruct Hsteps as [Hbody _].
  set (m2 := after (keyboard_shortcuts clock OPEN_PALM) _) in Hbody.
  set (gate := Qgeb (clock (reads m) - last_fire "click" (self m)) COOLDOWN_MED).
  assert (m2 =
          if pinch then
            {| self := if gate
                       then set_last_times
                              (<["click"%string := clock (reads m)]>
                                 (last_times (self m)))
                              (set_prev_mouse (Some nx) (Some ny) (self m))
                       else set_prev_mouse (Some nx) (Some ny) (self m);
               reads := S (reads m); latest_now := Some (clock (reads m));
               trace := (trace m ++ [Emission (latest_now m) (moveTo nx ny)])
                        ++ (if gate
                            then [Emission (Some (clock (reads m))) click]
                            else []) |}
          else
            {| self := set_prev_mouse (Some nx) (Some ny) (self m);
               reads := reads m; latest_now := latest_now m;
               trace := trace m ++ [Emission (latest_now m) (moveTo nx ny)] |})
    as Hm2.
  { subst m2. unfold after. rewrite Hmove. cbn [snd].
    rewrite left_click_run. cbv zeta. reflexivity. }
  clearbody m2. subst r. rewrite Hbody. clear Hbody.
  assert (scroll_mode (self m2) = true) as Hmode2
    by (rewrite Hm2; destruct pinch; [destruct gate|]; exact Hmode).
  assert (last_index_y (self m2) = Some base) as Hbase2
    by (rewrite Hm2; destruct pinch; [destruct gate|]; exact Hbase).
  assert (reads m2 = if pinch then S (reads m) else reads m) as Hreads
    by (rewrite Hm2; destruct pinch; reflexivity).
  assert (last_fire "scroll" (self m2) = last_fire "scroll" (self m)) as Hlast.
  { rewrite Hm2. unfold last_fire. destruct pinch; [|reflexivity].
    destruct gate; [|reflexivity].
    cbn [self last_times set_last_times set_prev_mouse].
    rewrite lookup_insert_ne by discriminate. reflexivity. }
  assert (exists earlier,
            Forall (fun e => category (what e) <> Some "scroll"%string) earlier /\
            trace m2 = trace m ++ earlier) as [earlier [Hearlier Htrace]].
  { rewrite Hm2. destruct pinch; [destruct gate|]; eexists;
      (split; [|cbn [trace]; rewrite <- ?app_assoc; reflexivity]);
      repeat constructor; discriminate. }
  pose proof (scrolling_loop_run clock index_tip m2 base Hmode2 Hbase2) as Hrun.
  cbv zeta in Hrun. rewrite Hrun. clear Hrun.
  rewrite Hreads, Hlast, Htrace. fold dy. fold amount. fold now. fold fires.
  cbn [fst snd trace self].
  split; [reflexivity|]. split.
  { exists earlier. split; [exact Hearlier|]. rewrite <- app_assoc. reflexivity. }
  split; [|split; [|split]].
  - intros Hpos. apply int_pos in Hpos. unfold SCROLL_SENSITIVITY in Hpos. lra.
  - intros Hneg. apply int_neg in Hneg. unfold SCROLL_SENSITIVITY in Hneg. lra.
  - destruct (Qltb _ _ && Qgeb _ _); exact Hmode2.
  - destruct (Qltb _ _ && Qgeb _ _); reflexivity.
Qed.

(** C3, as the code has it: a frame without a hand is skipped whole: the
    body returns at once, the object (scroll mode and baseline included),
    the clock and the emissions are what they were.  The exit to Idle
    belongs to frames with a hand: on a hand classified other than
    OPEN_PALM the scroll mode is off afterwards, and the baseline is
    cleared if the mode was on. *)
Theorem no_hand_frame_is_skipped :
  (forall m : machine, loop_body hypot clock None m = (Ok tt, m)) /\
  (forall (lm : list landmark) (g : gesture) (m : machine),
     classify hypot lm = Ok g -> g <> OPEN_PALM ->
     consistent (self m) = true ->
     let r := loop_body hypot clock (Some lm) m in
     r.1 = Ok tt /\ scroll_mode (self r.2) = false /\
     (scroll_mode (self m) = true -> last_index_y (self r.2) = None)).
Proof.
  split; [reflexivity|].
  intros lm g m Hg Hne Hcons r.
  assert (exists index_tip, lm !! 8%nat = Some index_tip) as [index_tip H8].
  { destruct (lm !! 8%nat) as [i8|] eqn:E; [eauto|].
    unfold classify, getitem in Hg. rewrite E in Hg.
    destruct (lm !! 4%nat), (lm !! 3%nat); discriminate. }
  destruct (loop_body_effect hypot clock lm g index_tip m Hg H8 Hcons)
    as [Ho [_ [_ [_ [_ [_ [Hstep _]]]]]]].
  fold r in Ho, Hstep. split; [exact Ho|].
  apply (f_equal fst) in Hstep as Hm'. apply (f_equal snd) in Hstep as Hb'.
  cbn [fst snd] in Hm', Hb'. rewrite Hm', Hb'.
  destruct g, (scroll_mode (self m)); try contradiction; split;
    try reflexivity; intros; try reflexivity; discriminate.
Qed.

(** C7, as the code has it: the pointer position is kept in integers.
    On a frame with a hand the body emits the new position first; with no
    previous position that is the target
    [int(index_tip * screen_size)]; otherwise each coordinate becomes
    [int(prev + (target - prev) * SMOOTHING)], truncated toward zero.
    Feeding the same hand again and again never raises, never moves a
    coordinate away from its target, and brings it to within three pixels
    of the target, where truncation may hold it. *)
Theorem pointer_smoothing_truncates (lm : list landmark) (index_tip : landmark)
                                    (m : machine) :
  length lm = 21%nat -> lm !! 8%nat = Some index_tip ->
  consistent (self m) = true ->
  let tx := int (x index_tip * inject_Z (screen_w (self m))) in
  let ty := int (y index_tip * inject_Z (screen_h (self m))) in
  (let r := loop_body hypot clock (Some lm) m in
   r.1 = Ok tt /\
   exists nx ny,
     prev_mouse_x (self r.2) = Some nx /\ prev_mouse_y (self r.2) = Some ny /\
     (trace m ++ [Emission (latest_now m) (moveTo nx ny)]) `prefix_of` trace r.2 /\
     (prev_mouse_x (self m) = None -> nx = tx /\ ny = ty) /\
     (forall px py,
        prev_mouse_x (self m) = Some px -> prev_mouse_y (self m) = Some py ->
        nx = int (inject_Z px + inject_Z (tx - px) * SMOOTHING) /\
        ny = int (inject_Z py + inject_Z (ty - py) * SMOOTHING))) /\
  (forall (px py : Z) (n : nat),
     prev_mouse_x (self m) = Some px -> prev_mouse_y (self m) = Some py ->
     let r := while_running hypot clock (repeat (Some lm) n) m in
     r.1 = Ok tt /\
     exists sx sy,
       prev_mouse_x (self r.2) = Some sx /\ prev_mouse_y (self r.2) = Some sy /\
       (Z.abs (tx - sx) <= Z.abs (tx - px))%Z /\
       (Z.abs (ty - sy) <= Z.abs (ty - py))%Z /\
       ((Z.abs (tx - px) <= 3 + Z.of_nat n)%Z -> (Z.abs (tx - sx) <= 3)%Z) /\
       ((Z.abs (ty - py) <= 3 + Z.of_nat n)%Z -> (Z.abs (ty - sy) <= 3)%Z)).
Proof.
  intros Hlen H8 Hcons tx ty. split.
  - intros r.
    destruct (classify_returns_label hypot lm Hlen) as [g [Hg _]].
    destruct (loop_body_effect hypot clock lm g index_tip m Hg H8 Hcons)
      as [Ho [_ [_ [_ [Hx [Hy [_ Hpre]]]]]]].
    fold tx ty in Hx, Hy, Hpre. fold r in Ho, Hx, Hy, Hpre.
    split; [exact Ho|]. eexists _, _.
    split; [exact Hx|]. split; [exact Hy|]. split; [exact Hpre|]. split.
    + intros Hnone. unfold consistent in Hcons. apply andb_true_iff in Hcons.
      destruct Hcons as [Hboth _]. rewrite Hnone in *.
      destruct (prev_mouse_y (self m)); [discriminate Hboth|].
      cbn [default]. split; apply smooth_fixed.
    + intros px py Hpx Hpy. rewrite Hpx, Hpy. split; reflexivity.
  - intros px py n Hpx Hpy r.
    destruct (while_running_repeat hypot clock lm index_tip n m px py
                Hlen H8 Hcons Hpx Hpy) as [Ho [Hx Hy]].
    fold tx ty in Hx, Hy. fold r in Ho, Hx, Hy.
    split; [exact Ho|]. eexists _, _.
    split; [exact Hx|]. split; [exact Hy|].
    split; [apply smooth_iter_approaches|].
    split; [apply smooth_iter_approaches|].
    split; apply smooth_settles.
Qed.

End LoopClaims.

(** ** Consistency is an invariant of the run *)

Section Reachable.

Variable hypot : Q -> Q -> Q.
Variable clock : nat -> Q.

(** A hand that cannot be classified stops the body before it has done
    anything. *)
Lemma loop_body_raise (lm : list landmark) (e : exn) (m : machine) :
  classify hypot lm = Raise e ->
  loop_body hypot clock (Some lm) m = (Raise e, m).
Proof.
  intros Hc. unfold loop_body, bind, eval. rewrite Hc. reflexivity.
Qed.

Lemma loop_body_consistent (f : frame) (m : machine) :
  consistent (self m) = true ->
  consistent (self (loop_body hypot clock f m).2) = true.
Proof.
  intros Hcons. destruct f as [lm|]; [|exact Hcons].
  destruct (classify hypot lm) as [g|e] eqn:Hc.
  - assert (exists index_tip, lm !! 8%nat = Some index_tip) as [index_tip H8].
    { destruct (lm !! 8%nat) as [i8|] eqn:E; [eauto|].
      unfold classify, getitem in Hc. rewrite E in Hc.
      destruct (lm !! 4%nat), (lm !! 3%nat); discriminate. }
    exact (proj1 (proj2 (loop_body_effect hypot clock lm g index_tip m
                           Hc H8 Hcons))).
  - rewrite (loop_body_raise lm e m Hc). exact Hcons.
Qed.

(** Every state the loop reaches from a consistent one is consistent; the
    freshly constructed application is. *)
Lemma while_running_consistent (frames : list frame) (m : machine) :
  consistent (self m) = true ->
  consistent (self (while_running hypot clock frames m).2) = true.
Proof.
  revert m. induction frames as [|f rest IH]; intros m Hcons; [exact Hcons|].
  cbn [while_running]. unfold bind.
  pose proof (loop_body_consistent f m Hcons) as Hstep.
  destruct (loop_body hypot clock f m) as [[[]|e] m']; cbn [snd] in Hstep.
  - apply IH. exact Hstep.
  - exact Hstep.
Qed.

Lemma boot_consistent (w h : Z) : consistent (self (boot w h)) = true.
Proof. reflexivity. Qed.

End Reachable.

(** * The properties on concrete inputs *)

(** The classifier on the example hands. *)
Example classify_examples :
  classify hypot_micro open_hand = Ok OPEN_PALM /\
  classify hypot_micro ok_hand = Ok OK_SIGN /\
  classify hypot_micro peace_hand = Ok PEACE /\
  classify hypot_micro l_hand = Ok L_SIGN /\
  classify hypot_micro fist_hand = Ok FIST.
Proof. vm_compute. repeat split; reflexivity. Qed.

(** The OpenPalm rule and the Peace rule never match the same hand: all
    four fingers raised excludes ring and pinky folded. *)
Remark open_palm_excludes_peace (s : finger_state) :
  rule_open_palm s = true -> rule_peace s = false.
Proof.
  unfold rule_open_palm, rule_peace, up_count.
  destruct (index_up s), (middle_up s), (ring_up s), (pinky_up s), (thumb_up s);
    vm_compute; congruence.
Qed.

Lemma classify_priority_order_witness :
  length open_hand = 21%nat /\
  exists s, finger_states hypot_micro open_hand = Some s /\
            classify hypot_micro open_hand = Ok (first_match priority_rules s) /\
            (rule_open_palm s = true ->
             classify hypot_micro open_hand = Ok OPEN_PALM /\
             classify hypot_micro open_hand <> Ok PEACE).
Proof.
  split; [reflexivity|].
  apply (classify_priority_order hypot_micro open_hand). reflexivity.
Defined.

Lemma classify_total_deterministic_witness :
  length fist_hand = 21%nat /\
  (exists g, classify hypot_micro fist_hand = Ok g /\ In g classify_labels) /\
  (forall lm', lm' = fist_hand -> classify hypot_micro lm' = classify hypot_micro fist_hand).
Proof.
  split; [reflexivity|].
  apply (classify_total_deterministic hypot_micro fist_hand). reflexivity.
Defined.

Lemma classify_reads_ten_landmarks_witness :
  open_hand <> open_hand_moved /\
  classify hypot_micro open_hand = classify hypot_micro open_hand_moved.
Proof.
  split; [discriminate|].
  apply (classify_reads_ten_landmarks hypot_micro open_hand open_hand_moved);
    [reflexivity | reflexivity | repeat constructor].
Defined.

(** Twenty-two landmarks: no exception, and an ordinary label. *)
Lemma classify_wrong_count_counterexample :
  length long_hand = 22%nat /\
  classify hypot_micro long_hand = Ok OPEN_PALM /\
  ~ (forall lm : list landmark,
       length lm <> 21%nat -> exists e, classify hypot_micro lm = Raise e).
Proof.
  split; [reflexivity|]. split; [vm_compute; reflexivity|].
  intros Hall. destruct (Hall long_hand) as [e He]; [discriminate|].
  vm_compute in He. discriminate He.
Qed.

Lemma classify_wrong_count_witness :
  length long_hand <> 21%nat /\
  (((length long_hand < 21)%nat /\
    classify hypot_micro long_hand = Raise IndexError) \/
   ((21 < length long_hand)%nat /\
    exists g, classify hypot_micro long_hand = Ok g /\ In g classify_labels /\
              classify hypot_micro (take 21 long_hand) = Ok g)).
Proof.
  split; [discriminate|].
  apply (classify_wrong_count hypot_micro long_hand). discriminate.
Defined.

(** An OK sign, then an L sign, on a clock of half-second readings: the
    left click of the first frame and the right click of the second. *)
Example click_then_right_click :
  map what (trace (after (while_running hypot_micro clock_500ms
                            [Some ok_hand; Some l_hand]) (boot 1920 1080)))
  = [moveTo 787 432; click; hotkey "ctrl" "c"; moveTo 782 405; rightClick;
     hotkey "ctrl" "v"].
Proof. vm_compute. reflexivity. Qed.

(** The same two frames 10 ms apart: the right click is held back by the
    left click's cooldown, and the Paste by the Copy's. *)
Example right_click_held_back :
  map what (trace (after (while_running hypot_micro clock_10ms
                            [Some ok_hand; Some l_hand]) (boot 1920 1080)))
  = [moveTo 787 432; click; hotkey "ctrl" "c"; moveTo 782 405].
Proof. vm_compute. reflexivity. Qed.

Lemma cooldown_gate_witness :
  spaced (trace (after (while_running hypot_micro clock_500ms
                          [Some ok_hand; Some l_hand; Some fist_hand])
                       (boot 1920 1080))).
Proof.
  exact (proj2 (cooldown_gate hypot_micro clock_500ms)
               (GestureApp_init 1920 1080)
               [Some ok_hand; Some l_hand; Some fist_hand]).
Defined.

Lemma clicks_share_one_gate_witness :
  exists ti tj,
    Some (clock_500ms 0) = Some ti /\ Some (clock_500ms 2) = Some tj /\
    COOLDOWN_MED <= tj - ti /\ ~ tj - ti < COOLDOWN_MED.
Proof.
  apply (clicks_share_one_gate hypot_micro clock_500ms
           (GestureApp_init 1920 1080) [Some ok_hand; Some l_hand]
           1 4 (Emission (Some (clock_500ms 0)) click)
           (Emission (Some (clock_500ms 2)) rightClick)).
  - lia.
  - vm_compute. reflexivity.
  - vm_compute. reflexivity.
  - left. reflexivity.
  - right. reflexivity.
Defined.

(** A hand leaves the frame during scroll mode: the mode stays on and the
    baseline stays set. *)
Lemma no_hand_counterexample :
  scroll_mode (self scrolling_machine) = true /\
  scroll_mode (self (after (loop_body hypot_micro clock_10ms None)
                           scrolling_machine)) = true /\
  last_index_y (self (after (loop_body hypot_micro clock_10ms None)
                            scrolling_machine)) = Some 0.5.
Proof. vm_compute. repeat split; reflexivity. Qed.

Lemma no_hand_frame_is_skipped_witness :
  loop_body hypot_micro clock_10ms None scrolling_machine
    = (Ok tt, scrolling_machine) /\
  scroll_mode (self (loop_body hypot_micro clock_10ms (Some fist_hand)
                       scrolling_machine).2) = false.
Proof.
  split.
  - exact (proj1 (no_hand_frame_is_skipped hypot_micro clock_10ms)
                 scrolling_machine).
  - apply (proj2 (no_hand_frame_is_skipped hypot_micro clock_10ms)
                 fist_hand FIST scrolling_machine);
      [vm_compute; reflexivity | discriminate | vm_compute; reflexivity].
Defined.

(** The spec's scenario: Idle, then OPEN_PALM, OPEN_PALM, FIST. *)
Example scroll_machine_scenario :
  let run frames :=
    self (after (while_running hypot_micro clock_10ms frames) (boot 1920 1080)) in
  scroll_mode (run [Some open_hand]) = true /\
  scroll_mode (run [Some open_hand; Some open_hand]) = true /\
  scroll_mode (run [Some open_hand; Some open_hand; Some fist_hand]) = false /\
  last_index_y (run [Some open_hand; Some open_hand; Some fist_hand]) = None.
Proof. vm_compute. repeat split; reflexivity. Qed.

(** The index tip rises by 0.0087890625: the product with the
    sensitivity is 7.91015625, the code scrolls by 7, rounding gives 8. *)
Lemma scroll_amount_counterexample :
  map what (trace (after (loop_body hypot_micro clock_10ms
                            (Some (palm_at 0.4912109375)))
                         scrolling_machine))
  = [moveTo 768 540; moveTo 768 537; scroll 7] /\
  last_index_y (self scrolling_machine) = Some 0.5 /\
  round ((0.5 - 0.4912109375) * SCROLL_SENSITIVITY) = 8%Z.
Proof. vm_compute. repeat split; reflexivity. Qed.

Lemma scroll_amount_is_truncated_witness :
  classify hypot_micro (palm_at 0.4912109375) = Ok OPEN_PALM /\
  scroll_mode (self scrolling_machine) = true /\
  last_index_y (self scrolling_machine) = Some 0.5 /\
  last_index_y (self (loop_body hypot_micro clock_10ms
                        (Some (palm_at 0.4912109375)) scrolling_machine).2)
  = Some (0.5 * 0.85 + 0.4912109375 * 0.15).
Proof.
  split; [reflexivity|]. split; [reflexivity|]. split; [reflexivity|].
  exact (proj2 (proj2 (proj2 (proj2 (proj2
           (scroll_amount_is_truncated hypot_micro clock_10ms
              (palm_at 0.4912109375) (Landmark 0.4 0.4912109375)
              (Landmark 0.2 0.55) scrolling_machine 0.5
              eq_refl eq_refl eq_refl eq_refl eq_refl eq_refl)))))).
Defined.

(** The pointer is at (0, 0) and the target stays at (3, 3): truncation
    returns 0 at every step, and the pointer never gets closer. *)
Lemma pointer_smoothing_counterexample :
  int (x near_origin * inject_Z 1920) = 3%Z /\
  prev_mouse_x (self parked_machine) = Some 0%Z /\
  ~ (exists (n : nat) (sx : Z),
       prev_mouse_x
         (self (after (while_running hypot_micro clock_10ms
                         (repeat (Some (fist_pointing near_origin)) n))
                      parked_machine)) = Some sx /\
       (Z.abs (3 - sx) < 3)%Z).
Proof.
  split; [reflexivity|]. split; [reflexivity|].
  intros [n [sx [Hsx Hnear]]].
  destruct (while_running_repeat hypot_micro clock_10ms
              (fist_pointing near_origin) near_origin n parked_machine 0 0)
    as [_ [Hx _]]; try reflexivity.
  unfold after in Hsx. rewrite Hx in Hsx.
  change (int (x near_origin * inject_Z (screen_w (self parked_machine))))
    with 3%Z in Hsx.
  rewrite smooth_iter_stuck in Hsx by reflexivity.
  injection Hsx as <-. lia.
Qed.

Lemma pointer_smoothing_truncates_witness :
  length (fist_pointing near_origin) = 21%nat /\
  (while_running hypot_micro clock_10ms
     (repeat (Some (fist_pointing near_origin)) 5) parked_machine).1 = Ok tt.
Proof.
  split; [reflexivity|].
  exact (proj1 (proj2 (pointer_smoothing_truncates hypot_micro clock_10ms
                         (fist_pointing near_origin) near_origin parked_machine
                         eq_refl eq_refl eq_refl)
                      0%Z 0%Z 5%nat eq_refl eq_refl)).
Defined.

Lemma ok_sign_clicks_and_copies_witness :
  classify hypot_micro ok_hand = Ok OK_SIGN /\
  (exists index_tip thumb_tip,
     ok_hand !! 8%nat = Some index_tip /\ ok_hand !! 4%nat = Some thumb_tip /\
     Qltb (hypot_micro (x thumb_tip - x index_tip) (y thumb_tip - y index_tip))
          PINCH_THRESHOLD = true) /\
  (loop_body hypot_micro clock_10ms (Some ok_hand) (boot 1920 1080)).1 = Ok tt.
Proof.
  split; [reflexivity|].
  destruct (ok_sign_clicks_and_copies hypot_micro clock_10ms ok_hand
              (boot 1920 1080) eq_refl eq_refl)
    as [index_tip [thumb_tip [H8 [H4 [Hpinch Hfires]]]]].
  split; [exists index_tip, thumb_tip; auto|].
  apply Hfires; apply Qle_bool_iff; reflexivity.
Defined.

(** The OK sign on a fresh application: pointer move, left click, Copy. *)
Example ok_sign_frame :
  map what (trace (after (loop_body hypot_micro clock_10ms (Some ok_hand))
                         (boot 1920 1080)))
  = [moveTo 787 432; click; hotkey "ctrl" "c"].
Proof. vm_compute. reflexivity. Qed.

(** * Properties of the volume controller *)

Lemma py_min_spec (a b : Q) :
  py_min a b <= a /\ py_min a b <= b /\ (py_min a b = a \/ py_min a b = b).
Proof.
  unfold py_min. destruct (Qltb b a) eqn:E.
  - apply Qltb_true in E. repeat split; [lra | lra | right; reflexivity].
  - assert (~ b < a) as Hn by (intros H; apply Qltb_true in H; congruence).
    repeat split; [lra | lra | left; reflexivity].
Qed.

Lemma py_max_spec (a b : Q) :
  a <= py_max a b /\ b <= py_max a b /\ (py_max a b = a \/ py_max a b = b).
Proof.
  unfold py_max. destruct (Qltb a b) eqn:E.
  - apply Qltb_true in E. repeat split; [lra | lra | right; reflexivity].
  - assert (~ a < b) as Hn by (intros H; apply Qltb_true in H; congruence).
    repeat split; [lra | lra | left; reflexivity].
Qed.

(** The clamp of [set_volume]. *)
Lemma clamp_range (level : Q) :
  0 <= py_max 0.0 (py_min 1.0 level) <= 1 /\
  (0 <= level <= 1 -> py_max 0.0 (py_min 1.0 level) == level).
Proof.
  destruct (py_min_spec 1.0 level) as [H1 [H2 H3]].
  remember (py_min 1.0 level) as p eqn:Ep. clear Ep.
  destruct (py_max_spec 0.0 p) as [H4 [H5 H6]].
  remember (py_max 0.0 p) as q eqn:Eq. clear Eq.
  split.
  - split; [lra|]. destruct H6 as [-> | ->]; lra.
  - intros [Hlo Hhi]. destruct H6 as [-> | ->].
    + destruct H3 as [-> | ->]; lra.
    + destruct H3 as [-> | ->]; lra.
Qed.

Section VolumeFacts.

Context {D : Type}.
Variable ep : IAudioEndpointVolume D.

Let vc : VolumeController D := {| volume := Some ep |}.

(** X1: whatever level is asked of [set_volume], whatever the step of
    [volume_up] and [volume_down], and whatever the device reports as its
    current level (or if reading it raises), the level handed to
    [SetMasterVolumeLevelScalar] lies in [0, 1]; a level already in
    [0, 1] is handed to it unchanged. *)
Theorem requested_level_in_range (level step : Q) (d : D) :
  (exists l, 0 <= l <= 1 /\ (0 <= level <= 1 -> l == level) /\
             set_volume vc level d = (SetMasterVolumeLevelScalar ep l d).2) /\
  (exists l, 0 <= l <= 1 /\
             VolumeController_volume_up vc step d =
               (SetMasterVolumeLevelScalar ep l
                  (GetMasterVolumeLevelScalar ep d).2).2) /\
  (exists l, 0 <= l <= 1 /\
             VolumeController_volume_down vc step d =
               (SetMasterVolumeLevelScalar ep l
                  (GetMasterVolumeLevelScalar ep d).2).2).
Proof.
  split; [|split].
  - eexists. split; [apply clamp_range|]. split; [apply clamp_range|].
    reflexivity.
  - unfold VolumeController_volume_up, get_volume, set_volume. cbn [volume vc].
    destruct (GetMasterVolumeLevelScalar ep d) as [[v|] d'];
      (eexists; split; [apply clamp_range | reflexivity]).
  - unfold VolumeController_volume_down, get_volume, set_volume. cbn [volume vc].
    destruct (GetMasterVolumeLevelScalar ep d) as [[v|] d'];
      (eexists; split; [apply clamp_range | reflexivity]).
Qed.

(** X2: when reading the current level raises, [get_volume] answers 0.0;
    so [volume_up] with the default step asks the device for 0.05 and
    [volume_down] asks it for 0, whatever the real level was. *)
Theorem unreadable_level_counts_as_zero (d d' : D) :
  GetMasterVolumeLevelScalar ep d = (None, d') ->
  get_volume vc d = (0.0, d') /\
  (exists l, l == 0.05 /\
             VolumeController_volume_up vc default_step d =
               (SetMasterVolumeLevelScalar ep l d').2) /\
  (exists l, l == 0 /\
             VolumeController_volume_down vc default_step d =
               (SetMasterVolumeLevelScalar ep l d').2).
Proof.
  intros Hget.
  unfold VolumeController_volume_up, VolumeController_volume_down, get_volume,
    set_volume. cbn [volume vc]. rewrite Hget.
  split; [reflexivity|].
  split; (eexists; split; [|reflexivity]); vm_compute; reflexivity.
Qed.

End VolumeFacts.

(** X3: on a working device at a level [v] in [0, 1], [volume_up] with a
    step [s >= 0] raises the level to [v + s], or to 1 when that would
    pass 1; [volume_down] lowers it to [v - s], or to 0 when that would
    pass 0; neither touches the mute flag. *)
Theorem volume_steps_saturate (d : speaker) (s : Q) :
  0 <= master_level d <= 1 -> 0 <= s ->
  let up := VolumeController_volume_up working s d in
  let down := VolumeController_volume_down working s d in
  (master_level d + s <= 1 -> master_level up == master_level d + s) /\
  (1 <= master_level d + s -> master_level up == 1) /\
  (0 <= master_level d - s -> master_level down == master_level d - s) /\
  (master_level d - s <= 0 -> master_level down == 0) /\
  muted up = muted d /\ muted down = muted d.
Proof.
  intros [Hlo Hhi] Hs up down. subst up down.
  unfold VolumeController_volume_up, VolumeController_volume_down, get_volume,
    set_volume.
  cbn [working volume working_endpoint GetMasterVolumeLevelScalar
       SetMasterVolumeLevelScalar snd master_level muted].
  remember (master_level d) as v eqn:Ev. clear Ev.
  destruct (py_min_spec (v + s) 1.0) as [A1 [A2 A3]].
  destruct (py_max_spec (v - s) 0.0) as [B1 [B2 B3]].
  remember (py_min (v + s) 1.0) as a eqn:Ea. clear Ea.
  remember (py_max (v - s) 0.0) as b eqn:Eb. clear Eb.
  destruct (clamp_range a) as [_ Ca]. destruct (clamp_range b) as [_ Cb].
  remember (py_max 0.0 (py_min 1.0 a)) as a' eqn:Ea'. clear Ea'.
  remember (py_max 0.0 (py_min 1.0 b)) as b' eqn:Eb'. clear Eb'.
  assert (0 <= a <= 1) as Ha by (destruct A3 as [-> | ->]; lra).
  assert (0 <= b <= 1) as Hb by (destruct B3 as [-> | ->]; lra).
  specialize (Ca Ha). specialize (Cb Hb).
  repeat split; try reflexivity; intros H; destruct A3 as [E | E];
    destruct B3 as [F | F]; rewrite ?E in *; rewrite ?F in *; lra.
Qed.

(** One call on a working device keeps the level in [0, 1]. *)
Lemma perform_working_range (c : call) (d : speaker) :
  0 <= master_level d <= 1 -> 0 <= master_level (perform working c d) <= 1.
Proof.
  intros Hd. destruct c; cbn [perform]; try exact Hd.
  - unfold VolumeController_volume_up, get_volume, set_volume.
    cbn [working volume working_endpoint GetMasterVolumeLevelScalar
         SetMasterVolumeLevelScalar snd master_level].
    apply clamp_range.
  - unfold VolumeController_volume_down, get_volume, set_volume.
    cbn [working volume working_endpoint GetMasterVolumeLevelScalar
         SetMasterVolumeLevelScalar snd master_level].
    apply clamp_range.
Qed.

Lemma perform_working_muted (c : call) (d : speaker) :
  muted (perform working c d)
  = xorb (muted d) (match c with mute_unmute => true | _ => false end).
Proof.
  destruct c; cbn; try (symmetry; apply xorb_false_r).
  destruct (muted d); reflexivity.
Qed.

(** X4: on a working device whose level starts in [0, 1], the level is in
    [0, 1] after the calls of any run, and the mute flag is flipped
    exactly when the run holds an odd number of mute toggles. *)
Theorem run_keeps_volume_in_range (tr : list emission) (d : speaker) :
  0 <= master_level d <= 1 ->
  0 <= master_level (perform_all working tr d) <= 1 /\
  muted (perform_all working tr d) = xorb (muted d) (Nat.odd (mute_toggles tr)).
Proof.
  unfold perform_all, mute_toggles. revert d.
  induction tr as [|e tr IH]; intros d Hd.
  - cbn. split; [exact Hd | symmetry; apply xorb_false_r].
  - cbn [fold_left List.filter].
    destruct (IH (perform working (what e) d) (perform_working_range _ _ Hd))
      as [Hr Hm].
    split; [exact Hr|]. rewrite Hm, perform_working_muted.
    destruct (what e); cbn [length]; rewrite ?xorb_false_r; try reflexivity.
    rewrite Nat.odd_succ, <- Nat.negb_odd.
    destruct (muted d), (Nat.odd _); reflexivity.
Qed.


(** * Further properties of the classifier *)

Section LabelConditions.

Variable hypot : Q -> Q -> Q.

(** X6: the priority order only decides between the OK sign and the other
    rules.  On 21 landmarks the label is OPEN_PALM exactly when the
    OpenPalm rule matches; OK_SIGN exactly when the pinch is under the
    OK-sign threshold and the palm is not open; and PEACE, ROCK, L_SIGN,
    THUMBS_UP or FIST exactly when that label's own rule matches and the
    pinch is not under the threshold.  [classify] never returns the
    loop's "No hand". *)
Theorem label_conditions (lm : list landmark) :
  length lm = 21%nat ->
  exists s g,
    finger_states hypot lm = Some s /\ classify hypot lm = Ok g /\
    gesture_eqb g OPEN_PALM = rule_open_palm s /\
    gesture_eqb g OK_SIGN = rule_ok_sign s && negb (rule_open_palm s) /\
    gesture_eqb g PEACE = rule_peace s && negb (rule_ok_sign s) /\
    gesture_eqb g ROCK = rule_rock s && negb (rule_ok_sign s) /\
    gesture_eqb g L_SIGN = rule_l_sign s && negb (rule_ok_sign s) /\
    gesture_eqb g THUMBS_UP = rule_thumbs_up s && negb (rule_ok_sign s) /\
    gesture_eqb g FIST = rule_fist s && negb (rule_ok_sign s) /\
    gesture_eqb g No_hand = false.
Proof.
  intros Hlen. destruct (finger_states_total hypot lm Hlen) as [s Hs].
  exists s, (first_match priority_rules s).
  split; [exact Hs|]. split; [exact (classify_first_match hypot lm s Hs)|].
  cbn [first_match priority_rules].
  unfold rule_open_palm, rule_peace, rule_rock, rule_l_sign, rule_thumbs_up,
    rule_fist, up_count.
  destruct (rule_ok_sign s), (thumb_up s), (index_up s), (middle_up s),
    (ring_up s), (pinky_up s); vm_compute; repeat split; reflexivity.
Qed.

End LabelConditions.

(** * Further properties of the dispatcher *)

(** ** Truncation is monotone *)

Lemma int_lower (q : Q) (k : Z) : (0 <= k)%Z -> inject_Z k <= q -> (k <= int q)%Z.
Proof.
  destruct q as [n d]. unfold int, Qle, inject_Z. cbn [Qnum Qden]. intros Hk H.
  apply Z.quot_le_lower_bound; lia.
Qed.

Lemma int_opp (q : Q) : int (- q) = (- int q)%Z.
Proof.
  destruct q as [n d]. unfold int, Qopp. cbn [Qnum Qden].
  apply Z.quot_opp_l. lia.
Qed.

Lemma int_upper (q : Q) (k : Z) : 0 <= q -> q <= inject_Z k -> (0 <= int q <= k)%Z.
Proof.
  destruct q as [n d]. unfold int, Qle, inject_Z. cbn [Qnum Qden]. intros H0 H.
  split; [apply Z.quot_pos; lia|].
  apply Z.quot_le_upper_bound; lia.
Qed.

(** Past the minimal delta the scroll amount is at least three units. *)
Lemma scroll_amount_far (dy : Q) :
  Qltb SCROLL_MIN_DELTA (Qabs dy) = true ->
  (3 <= Z.abs (int (dy * SCROLL_SENSITIVITY)))%Z.
Proof.
  intros H. apply Qltb_true in H. unfold SCROLL_MIN_DELTA in H.
  unfold SCROLL_SENSITIVITY.
  destruct (Qlt_le_dec dy 0) as [Hneg|Hpos].
  - rewrite Qabs_neg in H by lra.
    assert ((3 <= int (- (dy * 900)))%Z) as Hk
      by (apply int_lower; [lia | change (inject_Z 3) with 3; lra]).
    rewrite int_opp in Hk. lia.
  - rewrite Qabs_pos in H by exact Hpos.
    assert ((3 <= int (dy * 900))%Z) as Hk
      by (apply int_lower; [lia | change (inject_Z 3) with 3; lra]).
    lia.
Qed.

(** ** What a frame adds to the emissions *)

Lemma added_same (P : call -> Prop) (t : list emission) (m m' : machine) :
  trace m' = trace m -> added_since P t m -> added_since P t m'.
Proof. intros E [more [Ht Hall]]. exists more. rewrite E. auto. Qed.

Lemma added_snoc (P : call -> Prop) (t : list emission) (m : machine)
                 (a : GestureApp) (r : nat) (l s : option Q) (c : call) :
  P c -> added_since P t m ->
  added_since P t {| self := a; reads := r; latest_now := l;
                     trace := trace m ++ [Emission s c] |}.
Proof.
  intros Hc [more [Ht Hall]]. exists (more ++ [Emission s c]). cbn [trace].
  split; [rewrite Ht, app_assoc; reflexivity|].
  apply Forall_app. split; [exact Hall|]. constructor; [exact Hc | constructor].
Qed.

Ltac adds_block :=
  let m := fresh "m" in
  let Hm := fresh "Hm" in
  intros m Hm; unfold_monad; cbn -[Qabs Qminus Qplus Qmult Qltb Qgeb int];
  split_paths; cbn -[Qabs Qminus Qplus Qmult Qltb Qgeb int];
  try (simpl in *; discriminate);
  first [ exact Hm
        | apply (added_same _ _ m); [reflexivity | exact Hm]
        | apply added_snoc; [auto | exact Hm] ].

Section Adds.

Variable hypot : Q -> Q -> Q.
Variable clock : nat -> Q.
Variable P : call -> Prop.
Variable t : list emission.

Lemma mouse_move_adds (index_tip : landmark) :
  (forall px py, P (moveTo px py)) ->
  hoare (added_since P t) (mouse_move index_tip) (fun _ => added_since P t).
Proof. intros Hmove. adds_block. Qed.

Lemma left_click_adds (index_tip thumb_tip : landmark) :
  P click ->
  hoare (added_since P t) (left_click hypot clock index_tip thumb_tip)
        (fun _ => added_since P t).
Proof. intros Hclick. adds_block. Qed.

Lemma right_click_adds (g : gesture) :
  (g = L_SIGN -> P rightClick) ->
  hoare (added_since P t) (right_click clock g) (fun _ => added_since P t).
Proof. intros Hright. destruct g; adds_block. Qed.

Lemma volume_controls_adds (g : gesture) :
  (g = THUMBS_UP -> P volume_up) -> (g = FIST -> P volume_down) ->
  (g = ROCK -> P mute_unmute) ->
  hoare (added_since P t) (volume_controls clock g) (fun _ => added_since P t).
Proof. intros Hup Hdown Hmute. destruct g; adds_block. Qed.

Lemma keyboard_shortcuts_adds (g : gesture) :
  (g = OK_SIGN -> P (hotkey "ctrl" "c")) ->
  (g = L_SIGN -> P (hotkey "ctrl" "v")) ->
  (g = PEACE -> P (hotkey "ctrl" "s")) ->
  hoare (added_since P t) (keyboard_shortcuts clock g) (fun _ => added_since P t).
Proof. intros Hc Hv Hs. destruct g; adds_block. Qed.

Lemma scrolling_adds (g : gesture) (index_tip : landmark) :
  (g = OPEN_PALM -> forall n, (3 <= Z.abs n)%Z -> P (scroll n)) ->
  hoare (added_since P t) (scrolling clock g index_tip)
        (fun _ => added_since P t).
Proof.
  intros Hscroll. destruct g; adds_block.
  apply Hscroll; [reflexivity|]. apply scroll_amount_far. assumption.
Qed.

(** A frame with a classified hand adds only calls its gesture
    dispatches. *)
Lemma loop_body_adds (lm : list landmark) (g : gesture) :
  classify hypot lm = Ok g -> dispatches P g ->
  hoare (added_since P t) (loop_body hypot clock (Some lm))
        (fun _ => added_since P t).
Proof.
  intros Hg [Hmove [Hclick [Hright [Hup [Hdown [Hmute [Hc [Hv [Hs Hscroll]]]]]]]]].
  unfold loop_body. rewrite Hg.
  apply (hoare_bind _ _ _ (fun o m => o = Ok g /\ added_since P t m));
    [intros m Hm; split; [reflexivity | exact Hm] | | intros e m [He _]; discriminate He].
  intros g0 m [Hg0 Hm]. injection Hg0 as ->. revert m Hm.
  change (hoare (added_since P t)
            (let! index_tip := eval (getitem lm 8) in
             let! thumb_tip := eval (getitem lm 4) in
             do! mouse_move index_tip in
             do! left_click hypot clock index_tip thumb_tip in
             do! right_click clock g in
             do! volume_controls clock g in
             do! keyboard_shortcuts clock g in
             scrolling clock g index_tip)
            (fun _ => added_since P t)).
  apply keeps_bind; [apply keeps_eval|]. intros index_tip.
  apply keeps_bind; [apply keeps_eval|]. intros thumb_tip.
  apply keeps_bind; [apply mouse_move_adds; exact Hmove|]. intros _.
  apply keeps_bind; [apply left_click_adds; exact Hclick|]. intros _.
  apply keeps_bind; [apply right_click_adds; exact Hright|]. intros _.
  apply keeps_bind; [apply volume_controls_adds; assumption|]. intros _.
  apply keeps_bind; [apply keyboard_shortcuts_adds; assumption|]. intros _.
  apply scrolling_adds. exact Hscroll.
Qed.

(** Any frame adds only calls that every gesture's dispatch grants. *)
Lemma loop_body_adds_any (f : frame) :
  (forall g, dispatches P g) ->
  hoare (added_since P t) (loop_body hypot clock f) (fun _ => added_since P t).
Proof.
  intros Hall. destruct f as [lm|]; [|apply keeps_ret].
  destruct (classify hypot lm) as [g|e] eqn:Hg.
  - apply (loop_body_adds lm g Hg (Hall g)).
  - intros m Hm. rewrite (loop_body_raise hypot clock lm e m Hg). exact Hm.
Qed.

Lemma while_running_adds (frames : list frame) :
  (forall g, dispatches P g) ->
  hoare (added_since P t) (while_running hypot clock frames)
        (fun _ => added_since P t).
Proof.
  intros Hall. induction frames as [|f rest IH]; [apply keeps_ret|].
  cbn [while_running]. apply keeps_bind; [apply loop_body_adds_any; exact Hall|].
  intros _. exact IH.
Qed.

End Adds.

Lemma added_since_refl (P : call -> Prop) (m : machine) :
  added_since P (trace m) m.
Proof. exists []. split; [symmetry; apply app_nil_r | constructor]. Qed.

Section DispatchTable.

Variable hypot : Q -> Q -> Q.
Variable clock : nat -> Q.

(** X7: the dispatch table.  Whatever the state and the clock, the calls
    that a frame classified [g] adds are a pointer move, the pinch click,
    and otherwise only what [g] stands for: a right click or Ctrl+V for
    L_SIGN, Ctrl+C for OK_SIGN, Ctrl+S for PEACE, volume up for
    THUMBS_UP, volume down for FIST, the mute toggle for ROCK, a scroll
    for OPEN_PALM, nothing more for UNKNOWN. *)
Theorem frame_dispatch_table (lm : list landmark) (g : gesture) (m : machine) :
  classify hypot lm = Ok g ->
  exists more,
    trace (after (loop_body hypot clock (Some lm)) m) = trace m ++ more /\
    Forall (fun e => permitted g (what e) = true) more.
Proof.
  intros Hg.
  apply (loop_body_adds hypot clock (fun c => permitted g c = true) (trace m)
           lm g Hg).
  - unfold dispatches.
    repeat split; intros; subst; reflexivity.
  - apply added_since_refl.
Qed.

(** X8: a scroll is never by less than three units.  Past the minimal
    delta the truncated amount is at least 3 in magnitude, so the test
    for a zero amount never holds a scroll back; and in the emissions of
    any run every scroll is by three units or more. *)
Theorem scrolls_by_three_or_more :
  (forall dy : Q,
     SCROLL_MIN_DELTA < Qabs dy ->
     (3 <= Z.abs (int (dy * SCROLL_SENSITIVITY)))%Z /\
     int (dy * SCROLL_SENSITIVITY) <> 0%Z) /\
  (forall (a : GestureApp) (frames : list frame) (e : emission) (n : Z),
     In e (trace (after (while_running hypot clock frames) (start a))) ->
     what e = scroll n -> (3 <= Z.abs n)%Z).
Proof.
  split.
  - intros dy Hdy. apply Qltb_true in Hdy.
    pose proof (scroll_amount_far dy Hdy). split; lia.
  - intros a frames e n Hin He.
    destruct (while_running_adds hypot clock (fun c => scrolls_far c = true) []
                frames) with (m := start a) as [more [Ht Hall]].
    + intros g. unfold dispatches.
      repeat split; intros; try reflexivity. cbn. apply Z.leb_le. assumption.
    + apply added_since_refl.
    + unfold after in Hin. rewrite Ht in Hin. cbn [app] in Hin.
      rewrite Forall_forall in Hall. specialize (Hall e).
      rewrite list_elem_of_In in Hall. specialize (Hall Hin).
      rewrite He in Hall. cbn in Hall. apply Z.leb_le in Hall. exact Hall.
Qed.

(** Outside scroll mode the blocks up to the scroll block leave the mode
    off and add no scroll. *)
Ltac idle_block :=
  let m := fresh "m" in
  let Hmode := fresh "Hmode" in
  let Hm := fresh "Hm" in
  intros m [Hmode Hm]; unfold_monad; cbn -[Qabs Qminus Qplus Qmult Qltb Qgeb int];
  split_paths; cbn -[Qabs Qminus Qplus Qmult Qltb Qgeb int];
  try (simpl in *; discriminate);
  (split; [exact Hmode|]);
  first [ exact Hm
        | apply (added_same _ _ m); [reflexivity | exact Hm]
        | apply added_snoc; [discriminate | exact Hm] ].

Lemma mouse_move_idle (t : list emission) (index_tip : landmark) :
  hoare (idle_since t) (mouse_move index_tip) (fun _ => idle_since t).
Proof. idle_block. Qed.

Lemma left_click_idle (t : list emission) (index_tip thumb_tip : landmark) :
  hoare (idle_since t) (left_click hypot clock index_tip thumb_tip)
        (fun _ => idle_since t).
Proof. idle_block. Qed.

Lemma right_click_idle (t : list emission) (g : gesture) :
  hoare (idle_since t) (right_click clock g) (fun _ => idle_since t).
Proof. destruct g; idle_block. Qed.

Lemma volume_controls_idle (t : list emission) (g : gesture) :
  hoare (idle_since t) (volume_controls clock g) (fun _ => idle_since t).
Proof. destruct g; idle_block. Qed.

Lemma keyboard_shortcuts_idle (t : list emission) (g : gesture) :
  hoare (idle_since t) (keyboard_shortcuts clock g) (fun _ => idle_since t).
Proof. destruct g; idle_block. Qed.

Lemma scrolling_idle (t : list emission) (g : gesture) (index_tip : landmark) :
  hoare (idle_since t) (scrolling clock g index_tip)
        (fun _ m => added_since (fun c => category c <> Some "scroll"%string) t m).
Proof.
  intros m [Hmode Hm]. unfold scrolling, bind, attr. cbn [self fst snd].
  rewrite Hmode.
  destruct (gesture_eqb g OPEN_PALM); cbn; exact Hm.
Qed.

Lemma loop_body_idle (t : list emission) (f : frame) :
  hoare (idle_since t) (loop_body hypot clock f)
        (fun _ m => added_since (fun c => category c <> Some "scroll"%string) t m).
Proof.
  destruct f as [lm|]; [|intros m Hm; exact (proj2 Hm)].
  unfold loop_body.
  apply (hoare_bind _ _ _ (fun _ => idle_since t));
    [apply keeps_eval | | intros e m' H; exact (proj2 H)].
  intros g.
  apply (hoare_bind _ _ _ (fun _ => idle_since t));
    [apply keeps_eval | | intros e m' H; exact (proj2 H)].
  intros index_tip.
  apply (hoare_bind _ _ _ (fun _ => idle_since t));
    [apply keeps_eval | | intros e m' H; exact (proj2 H)].
  intros thumb_tip.
  apply (hoare_bind _ _ _ (fun _ => idle_since t));
    [apply mouse_move_idle | | intros e m' H; exact (proj2 H)].
  intros _.
  apply (hoare_bind _ _ _ (fun _ => idle_since t));
    [apply left_click_idle | | intros e m' H; exact (proj2 H)].
  intros _.
  apply (hoare_bind _ _ _ (fun _ => idle_since t));
    [apply right_click_idle | | intros e m' H; exact (proj2 H)].
  intros _.
  apply (hoare_bind _ _ _ (fun _ => idle_since t));
    [apply volume_controls_idle | | intros e m' H; exact (proj2 H)].
  intros _.
  apply (hoare_bind _ _ _ (fun _ => idle_since t));
    [apply keyboard_shortcuts_idle | | intros e m' H; exact (proj2 H)].
  intros _. apply scrolling_idle.
Qed.

(** X9: a frame that starts outside scroll mode never scrolls: the frame
    on which an open palm enters scroll mode emits no scroll, and no
    other gesture's frame does. *)
Theorem no_scroll_outside_scroll_mode (f : frame) (m : machine) :
  scroll_mode (self m) = false ->
  exists more,
    trace (after (loop_body hypot clock f) m) = trace m ++ more /\
    Forall (fun e => forall n, what e <> scroll n) more.
Proof.
  intros Hmode.
  destruct (loop_body_idle (trace m) f m) as [more [Ht Hall]].
  { split; [exact Hmode | apply added_since_refl]. }
  exists more. split; [exact Ht|].
  eapply Forall_impl; [exact Hall|].
  intros e He n Hn. apply He. rewrite Hn. reflexivity.
Qed.

End DispatchTable.

(** ** How the loop ends *)

Section LoopEnds.

Variable hypot : Q -> Q -> Q.
Variable clock : nat -> Q.

(** [classify] raises only on a list of fewer than 21 landmarks, and then
    [IndexError]. *)
Lemma classify_raises (lm : list landmark) (e : exn) :
  classify hypot lm = Raise e -> e = IndexError /\ (length lm < 21)%nat.
Proof.
  intros Hc. destruct (Nat.lt_ge_cases (length lm) 21) as [Hlt|Hge].
  - rewrite (classify_short hypot lm Hlt) in Hc. injection Hc as <-. auto.
  - exfalso. rewrite (classify_take hypot lm Hge) in Hc.
    destruct (classify_returns_label hypot (take 21 lm)) as [g [Hg _]];
      [rewrite length_take; lia | congruence].
Qed.

(** On a consistent object a frame either completes, or its hand has fewer
    than 21 landmarks and [IndexError] leaves the body with nothing done. *)
Lemma loop_body_outcome (f : frame) (m : machine) :
  consistent (self m) = true ->
  (loop_body hypot clock f m).1 = Ok tt \/
  (exists lm, f = Some lm /\ (length lm < 21)%nat /\
              loop_body hypot clock f m = (Raise IndexError, m)).
Proof.
  intros Hcons. destruct f as [lm|]; [|left; reflexivity].
  destruct (classify hypot lm) as [g|e] eqn:Hc.
  - left.
    assert (exists index_tip, lm !! 8%nat = Some index_tip) as [index_tip H8].
    { destruct (lm !! 8%nat) as [i8|] eqn:E; [eauto|].
      unfold classify, getitem in Hc. rewrite E in Hc.
      destruct (lm !! 4%nat), (lm !! 3%nat); discriminate. }
    exact (proj1 (loop_body_effect hypot clock lm g index_tip m Hc H8 Hcons)).
  - right. destruct (classify_raises lm e Hc) as [-> Hlen].
    exists lm. split; [reflexivity|]. split; [exact Hlen|].
    apply loop_body_raise. exact Hc.
Qed.

(** X11: from a consistent object (the freshly constructed one is) the
    loop never raises [TypeError]: no arithmetic on a missing pointer
    coordinate or scroll baseline.  It ends normally, or with the
    [IndexError] of a hand of fewer than 21 landmarks; when every hand has
    at least 21 it ends normally. *)
Theorem loop_never_raises_type_error (frames : list frame) (m : machine) :
  consistent (self m) = true ->
  ((while_running hypot clock frames m).1 = Ok tt \/
   (while_running hypot clock frames m).1 = Raise IndexError) /\
  (Forall (fun f => forall lm, f = Some lm -> (21 <= length lm)%nat) frames ->
   (while_running hypot clock frames m).1 = Ok tt).
Proof.
  revert m. induction frames as [|f rest IH]; intros m Hcons.
  - split; [left; reflexivity | reflexivity].
  - cbn [while_running].
    pose proof (loop_body_consistent hypot clock f m Hcons) as Hnext.
    destruct (loop_body_outcome f m Hcons) as [Hok | [lm [-> [Hlen Hraise]]]].
    + rewrite (bind_ok _ _ m tt) by exact Hok.
      destruct (IH _ Hnext) as [Hrest Hall].
      split; [exact Hrest|]. intros Hlong. apply Hall.
      inversion Hlong. assumption.
    + unfold bind. rewrite Hraise. split; [right; reflexivity|].
      intros Hlong. inversion Hlong as [|? ? Hhead _].
      specialize (Hhead lm eq_refl). lia.
Qed.

Lemma while_running_app (before rest : list frame) (m : machine) :
  (while_running hypot clock before m).1 = Ok tt ->
  while_running hypot clock (before ++ rest) m
  = while_running hypot clock rest (after (while_running hypot clock before) m).
Proof.
  revert m. induction before as [|f before IH]; intros m Hok; [reflexivity|].
  cbn [app while_running] in *. unfold bind in *. unfold after in *.
  cbn [while_running]. unfold bind.
  destruct (loop_body hypot clock f m) as [[[]|e] m1]; [|discriminate Hok].
  apply IH. exact Hok.
Qed.

(** X12: a hand of fewer than 21 landmarks ends the loop.  The
    [IndexError] leaves [_loop]; the object, the clock and the emissions
    are as the frames before it left them; the frames after it are never
    looked at, and the cleanup that resets the pointer state is not
    run. *)
Theorem short_hand_ends_the_loop (before rest : list frame)
                                 (lm : list landmark) (m : machine) :
  (length lm < 21)%nat ->
  (while_running hypot clock before m).1 = Ok tt ->
  let m1 := after (while_running hypot clock before) m in
  while_running hypot clock (before ++ Some lm :: rest) m = (Raise IndexError, m1) /\
  _loop hypot clock (before ++ Some lm :: rest) m = (Raise IndexError, m1).
Proof.
  intros Hlen Hok m1.
  assert (while_running hypot clock (before ++ Some lm :: rest) m
          = (Raise IndexError, m1)) as Hrun.
  { rewrite (while_running_app before _ m Hok). fold m1.
    cbn [while_running]. unfold bind.
    rewrite (loop_body_raise hypot clock lm IndexError m1
               (classify_short hypot lm Hlen)).
    reflexivity. }
  split; [exact Hrun|]. unfold _loop, bind. rewrite Hrun. reflexivity.
Qed.

(** X13: a session that ends normally forgets the pointer position and
    nothing else: scroll mode, its baseline and the cooldown clocks stay
    as the last frame left them.  The first hand of the next session
    therefore puts the pointer on its target, without smoothing from the
    old position. *)
Theorem session_end_resets_pointer_only (frames : list frame) (m : machine)
    (lm : list landmark) (g : gesture) (index_tip : landmark) :
  consistent (self m) = true ->
  (while_running hypot clock frames m).1 = Ok tt ->
  classify hypot lm = Ok g -> lm !! 8%nat = Some index_tip ->
  let last := after (while_running hypot clock frames) m in
  let m' := after (_loop hypot clock frames) m in
  let tx := int (x index_tip * inject_Z (screen_w (self m'))) in
  let ty := int (y index_tip * inject_Z (screen_h (self m'))) in
  (_loop hypot clock frames m).1 = Ok tt /\
  prev_mouse_x (self m') = None /\ prev_mouse_y (self m') = None /\
  scroll_mode (self m') = scroll_mode (self last) /\
  last_index_y (self m') = last_index_y (self last) /\
  last_times (self m') = last_times (self last) /\
  trace m' = trace last /\
  (trace m' ++ [Emission (latest_now m') (moveTo tx ty)])
    `prefix_of` trace (after (loop_body hypot clock (Some lm)) m').
Proof.
  intros Hcons Hok Hg H8 last m' tx ty.
  pose proof (while_running_consistent hypot clock frames m Hcons) as Hlast.
  fold (after (while_running hypot clock frames) m) in Hlast. fold last in Hlast.
  assert (_loop hypot clock frames m
          = (Ok tt, {| self := set_prev_mouse None None (self last);
                       reads := reads last; latest_now := latest_now last;
                       trace := trace last |})) as Hloop.
  { unfold _loop. rewrite (bind_ok _ _ m tt) by exact Hok. reflexivity. }
  split; [rewrite Hloop; reflexivity|].
  subst tx ty m'.
  replace (after (_loop hypot clock frames) m)
    with {| self := set_prev_mouse None None (self last);
            reads := reads last; latest_now := latest_now last;
            trace := trace last |}
    by (unfold after; rewrite Hloop; reflexivity).
  clear Hloop. clearbody last.
  destruct last as [[px py w h times mode base] r l tr].
  cbn [self trace set_prev_mouse prev_mouse_x prev_mouse_y scroll_mode
       last_index_y last_times screen_w screen_h latest_now].
  repeat (split; [reflexivity|]).
  unfold consistent in Hlast. apply andb_true_iff in Hlast.
  destruct Hlast as [_ Hscroll].
  cbn [self scroll_mode last_index_y] in Hscroll.
  destruct (loop_body_effect hypot clock lm g index_tip
              {| self := {| prev_mouse_x := None; prev_mouse_y := None;
                            screen_w := w; screen_h := h; last_times := times;
                            scroll_mode := mode; last_index_y := base |};
                 reads := r; latest_now := l; trace := tr |} Hg H8)
    as [_ [_ [_ [_ [_ [_ [_ Hpre]]]]]]]; [exact Hscroll|].
  cbn [self trace prev_mouse_x prev_mouse_y default screen_w screen_h
       latest_now] in Hpre.
  rewrite !smooth_fixed in Hpre. exact Hpre.
Qed.

End LoopEnds.

(** ** The cooldown clocks over a run *)

Lemma fire_raises_clock (times : gmap string Q) (key k : string)
                        (now v cd : Q) :
  0 <= cd -> Qgeb (now - default 0 (times !! k)) cd = true ->
  v <= default 0 (times !! key) ->
  v <= default 0 (<[k := now]> times !! key).
Proof.
  intros Hcd Hgate Hv. apply Qgeb_true in Hgate.
  destruct (decide (k = key)) as [->|Hne].
  - rewrite lookup_insert_eq. cbn [default from_option id].
    remember (default 0 (times !! key)) as old eqn:E in *. clear E. lra.
  - rewrite lookup_insert_ne by exact Hne. exact Hv.
Qed.

Ltac clock_block :=
  let m := fresh "m" in
  let Hm := fresh "Hm" in
  intros m Hm; unfold last_fire in *; unfold_monad;
  cbn -[Qabs Qminus Qplus Qmult Qltb Qgeb int];
  split_paths; cbn -[Qabs Qminus Qplus Qmult Qltb Qgeb int];
  try (simpl in *; discriminate);
  first [ exact Hm
        | eapply fire_raises_clock; [ | eassumption | exact Hm]; discriminate ].

Lemma dom_insert_known (times : gmap string Q) (k : string) (now : Q)
                        (keys : gset string) :
  k ∈ keys -> dom times = keys -> dom (<[k := now]> times) = keys.
Proof.
  intros Hk Hd. rewrite dom_insert_L, Hd. apply subseteq_union_1_L.
  apply singleton_subseteq_l. exact Hk.
Qed.

Ltac keys_block Hin :=
  let m := fresh "m" in
  let Hm := fresh "Hm" in
  intros m Hm; unfold_monad;
  cbn -[Qabs Qminus Qplus Qmult Qltb Qgeb int];
  split_paths; cbn -[Qabs Qminus Qplus Qmult Qltb Qgeb int];
  try (simpl in *; discriminate);
  first [ exact Hm
        | apply dom_insert_known; [apply Hin; set_solver | exact Hm] ].

Section Clocks.

Variable hypot : Q -> Q -> Q.
Variable clock : nat -> Q.
Variable key : string.
Variable v : Q.

Let late (m : machine) : Prop := v <= last_fire key (self m).

Lemma mouse_move_late (index_tip : landmark) :
  hoare late (mouse_move index_tip) (fun _ => late).
Proof. unfold late. clock_block. Qed.

Lemma left_click_late (index_tip thumb_tip : landmark) :
  hoare late (left_click hypot clock index_tip thumb_tip) (fun _ => late).
Proof. unfold late. clock_block. Qed.

Lemma right_click_late (g : gesture) :
  hoare late (right_click clock g) (fun _ => late).
Proof. unfold late. destruct g; clock_block. Qed.

Lemma volume_controls_late (g : gesture) :
  hoare late (volume_controls clock g) (fun _ => late).
Proof. unfold late. destruct g; clock_block. Qed.

Lemma keyboard_shortcuts_late (g : gesture) :
  hoare late (keyboard_shortcuts clock g) (fun _ => late).
Proof. unfold late. destruct g; clock_block. Qed.

Lemma scrolling_late (g : gesture) (index_tip : landmark) :
  hoare late (scrolling clock g index_tip) (fun _ => late).
Proof. unfold late. destruct g; clock_block. Qed.

Lemma loop_body_late (f : frame) :
  hoare late (loop_body hypot clock f) (fun _ => late).
Proof.
  destruct f as [lm|]; [|apply keeps_ret].
  unfold loop_body.
  apply keeps_bind; [apply keeps_eval|]. intros g.
  apply keeps_bind; [apply keeps_eval|]. intros index_tip.
  apply keeps_bind; [apply keeps_eval|]. intros thumb_tip.
  apply keeps_bind; [apply mouse_move_late|]. intros _.
  apply keeps_bind; [apply left_click_late|]. intros _.
  apply keeps_bind; [apply right_click_late|]. intros _.
  apply keeps_bind; [apply volume_controls_late|]. intros _.
  apply keeps_bind; [apply keyboard_shortcuts_late|]. intros _.
  apply scrolling_late.
Qed.

Lemma while_running_late (frames : list frame) :
  hoare late (while_running hypot clock frames) (fun _ => late).
Proof.
  induction frames as [|f rest IH]; [apply keeps_ret|].
  cbn [while_running]. apply keeps_bind; [apply loop_body_late|].
  intros _. exact IH.
Qed.

End Clocks.

(** X14: the cooldown clocks never go back.  Over any run, and for any
    clock, even one that jumps backwards, no entry of [last_times]
    (absent read as 0) ends lower than it started: a gate that opens
    stores a time at least one cooldown later than the one it held. *)
Theorem cooldown_clocks_never_go_back (hypot : Q -> Q -> Q) (clock : nat -> Q)
    (frames : list frame) (m : machine) (key : string) :
  last_fire key (self m)
  <= last_fire key (self (after (while_running hypot clock frames) m)).
Proof.
  apply (while_running_late hypot clock key (last_fire key (self m)) frames m).
  apply Qle_refl.
Qed.

Section Keys.

Variable hypot : Q -> Q -> Q.
Variable clock : nat -> Q.
Variable keys : gset string.
Hypothesis known :
  {["volume"; "mute"; "click"; "keyboard"; "scroll"]} ⊆ keys.

Let keyed (m : machine) : Prop := dom (last_times (self m)) = keys.

Lemma mouse_move_keyed (index_tip : landmark) :
  hoare keyed (mouse_move index_tip) (fun _ => keyed).
Proof. unfold keyed. keys_block known. Qed.

Lemma left_click_keyed (index_tip thumb_tip : landmark) :
  hoare keyed (left_click hypot clock index_tip thumb_tip) (fun _ => keyed).
Proof. unfold keyed. keys_block known. Qed.

Lemma right_click_keyed (g : gesture) :
  hoare keyed (right_click clock g) (fun _ => keyed).
Proof. unfold keyed. destruct g; keys_block known. Qed.

Lemma volume_controls_keyed (g : gesture) :
  hoare keyed (volume_controls clock g) (fun _ => keyed).
Proof. unfold keyed. destruct g; keys_block known. Qed.

Lemma keyboard_shortcuts_keyed (g : gesture) :
  hoare keyed (keyboard_shortcuts clock g) (fun _ => keyed).
Proof. unfold keyed. destruct g; keys_block known. Qed.

Lemma scrolling_keyed (g : gesture) (index_tip : landmark) :
  hoare keyed (scrolling clock g index_tip) (fun _ => keyed).
Proof. unfold keyed. destruct g; keys_block known. Qed.

Lemma loop_body_keyed (f : frame) :
  hoare keyed (loop_body hypot clock f) (fun _ => keyed).
Proof.
  destruct f as [lm|]; [|apply keeps_ret].
  unfold loop_body.
  apply keeps_bind; [apply keeps_eval|]. intros g.
  apply keeps_bind; [apply keeps_eval|]. intros index_tip.
  apply keeps_bind; [apply keeps_eval|]. intros thumb_tip.
  apply keeps_bind; [apply mouse_move_keyed|]. intros _.
  apply keeps_bind; [apply left_click_keyed|]. intros _.
  apply keeps_bind; [apply right_click_keyed|]. intros _.
  apply keeps_bind; [apply volume_controls_keyed|]. intros _.
  apply keeps_bind; [apply keyboard_shortcuts_keyed|]. intros _.
  apply scrolling_keyed.
Qed.

Lemma while_running_keyed (frames : list frame) :
  hoare keyed (while_running hypot clock frames) (fun _ => keyed).
Proof.
  induction frames as [|f rest IH]; [apply keeps_ret|].
  cbn [while_running]. apply keeps_bind; [apply loop_body_keyed|].
  intros _. exact IH.
Qed.

End Keys.

(** X15: the loop writes no key of its own into [last_times]: from the
    freshly constructed application, after any run, the dictionary holds
    exactly the five keys that [__init__] gave it. *)
Theorem last_times_keeps_its_five_keys (hypot : Q -> Q -> Q) (clock : nat -> Q)
    (frames : list frame) (w h : Z) :
  dom (last_times (self (after (while_running hypot clock frames) (boot w h))))
  = {["volume"; "mute"; "click"; "keyboard"; "scroll"]}.
Proof.
  apply (while_running_keyed hypot clock
           {["volume"; "mute"; "click"; "keyboard"; "scroll"]}
           ltac:(reflexivity) frames (boot w h)).
  cbn [boot start self GestureApp_init last_times].
  rewrite !dom_insert_L, dom_empty_L. set_solver.
Qed.

(** ** An L sign with the thumb and index tips close *)

Section LSign.

Variable hypot : Q -> Q -> Q.
Variable clock : nat -> Q.

Lemma last_fire_set_prev_mouse (key : string) (px py : option Z)
                                (a : GestureApp) :
  last_fire key (set_prev_mouse px py a) = last_fire key a.
Proof. reflexivity. Qed.

Lemma last_fire_fired_same (key : string) (now : Q) (times : gmap string Q)
                           (a : GestureApp) :
  last_fire key (set_last_times (<[key := now]> times) a) = now.
Proof.
  unfold last_fire. cbn [last_times set_last_times].
  rewrite lookup_insert_eq. reflexivity.
Qed.

Lemma last_fire_fired_other (key other : string) (now : Q)
                            (a b : GestureApp) :
  key <> other ->
  last_fire other (set_last_times (<[key := now]> (last_times a)) b)
  = last_fire other a.
Proof.
  intros Hne. unfold last_fire. cbn [last_times set_last_times].
  rewrite lookup_insert_ne by exact Hne. reflexivity.
Qed.

(** The right-click block on L_SIGN, path by path. *)
Lemma right_click_run (m : machine) :
  let now := clock (reads m) in
  let gate := Qgeb (now - last_fire "click" (self m)) COOLDOWN_MED in
  right_click clock L_SIGN m =
    (Ok tt,
     {| self := if gate
                then set_last_times
                       (<["click"%string := now]> (last_times (self m))) (self m)
                else self m;
        reads := S (reads m); latest_now := Some now;
        trace := trace m ++ (if gate then [Emission (Some now) rightClick] else []) |}).
Proof.
  intros now gate. unfold right_click. cbn [gesture_eqb and_then].
  unfold bind. rewrite throttle_run. cbv zeta. fold now gate.
  destruct gate; cbn [when emit ret]; [reflexivity|].
  rewrite app_nil_r. reflexivity.
Qed.

(** The shortcut block on L_SIGN, path by path. *)
Lemma paste_run (m : machine) :
  let now := clock (reads m) in
  let gate := Qgeb (now - last_fire "keyboard" (self m)) COOLDOWN_MED in
  keyboard_shortcuts clock L_SIGN m =
    (Ok tt,
     {| self := if gate
                then set_last_times
                       (<["keyboard"%string := now]> (last_times (self m)))
                       (self m)
                else self m;
        reads := S (reads m); latest_now := Some now;
        trace := trace m ++
                 (if gate then [Emission (Some now) (hotkey "ctrl" "v")] else []) |}).
Proof.
  intros now gate. unfold keyboard_shortcuts, _perform_keyboard_shortcut.
  cbn [gesture_eqb orb when].
  unfold bind. rewrite throttle_run. cbv zeta. fold now gate.
  destruct gate; cbn [negb emit ret]; [reflexivity|].
  rewrite app_nil_r. reflexivity.
Qed.

(** X16: on a frame classified L_SIGN with the click gate open, the pinch
    decides which click is made.  With thumb and index tips closer than
    the pinch threshold the left click fires first and takes the gate, so
    unless the clock advances by a whole cooldown between two readings
    the right click of that frame is not made; with the tips apart the
    right click is made.  Either way Ctrl+V follows when the keyboard
    gate is open at the frame's third reading of the clock. *)
Theorem l_sign_pinch_takes_the_click (lm : list landmark)
    (index_tip thumb_tip : landmark) (m : machine) :
  classify hypot lm = Ok L_SIGN ->
  lm !! 8%nat = Some index_tip -> lm !! 4%nat = Some thumb_tip ->
  consistent (self m) = true ->
  let t0 := clock (reads m) in
  let t1 := clock (S (reads m)) in
  let t2 := clock (S (S (reads m))) in
  COOLDOWN_MED <= t0 - last_fire "click" (self m) ->
  let pinch :=
    Qltb (hypot (x thumb_tip - x index_tip) (y thumb_tip - y index_tip))
         PINCH_THRESHOLD in
  let r := loop_body hypot clock (Some lm) m in
  r.1 = Ok tt /\
  exists px py,
    (pinch = true -> t1 - t0 < COOLDOWN_MED ->
     trace r.2 =
       trace m ++ [Emission (latest_now m) (moveTo px py);
                   Emission (Some t0) click]
               ++ (if Qgeb (t2 - last_fire "keyboard" (self m)) COOLDOWN_MED
                   then [Emission (Some t2) (hotkey "ctrl" "v")] else [])) /\
    (pinch = false ->
     trace r.2 =
       trace m ++ [Emission (latest_now m) (moveTo px py);
                   Emission (Some t0) rightClick]
               ++ (if Qgeb (t1 - last_fire "keyboard" (self m)) COOLDOWN_MED
                   then [Emission (Some t1) (hotkey "ctrl" "v")] else [])).
Proof.
  intros Hg H8 H4 Hcons t0 t1 t2 Hclick pinch r.
  apply Qgeb_true in Hclick.
  unfold consistent in Hcons. apply andb_true_iff in Hcons.
  destruct Hcons as [Hboth _].
  pose proof (mouse_move_run index_tip m Hboth) as Hmove. cbv zeta in Hmove.
  set (nx := smooth _ _) in Hmove. set (ny := smooth _ _) in Hmove.
  assert ((mouse_move index_tip m).1 = Ok tt) as Hmok
    by (rewrite Hmove; reflexivity).
  pose proof (loop_body_steps hypot clock lm L_SIGN index_tip thumb_tip m
                Hg H8 H4 Hmok) as Hsteps.
  cbv zeta in Hsteps. destruct Hsteps as [Hbody _].
  subst r. rewrite Hbody. clear Hbody.
  rewrite scrolling_exit_run by discriminate. cbn [fst snd trace].
  split; [reflexivity|]. exists nx, ny.
  unfold after. rewrite Hmove. cbn [snd].
  rewrite left_click_run. cbv zeta. cbn [snd reads self trace]. fold pinch.
  rewrite !last_fire_set_prev_mouse. fold t0. rewrite Hclick.
  split.
  - intros Hpinch Hsoon. rewrite Hpinch.
    rewrite right_click_run. cbv zeta. cbn [snd reads self trace latest_now].
    rewrite last_fire_fired_same. fold t1.
    assert (Qgeb (t1 - t0) COOLDOWN_MED = false) as Hheld.
    { destruct (Qgeb (t1 - t0) COOLDOWN_MED) eqn:E; [|reflexivity].
      apply Qgeb_true in E. exfalso. exact (Qlt_not_le _ _ Hsoon E). }
    rewrite Hheld.
    cbn [volume_controls gesture_eqb and_then bind ret when snd].
    rewrite paste_run. cbv zeta. cbn [snd reads self trace latest_now]. fold t2.
    rewrite last_fire_fired_other by discriminate.
    rewrite last_fire_set_prev_mouse.
    rewrite app_nil_r, <- !app_assoc. reflexivity.
  - intros Hpinch. rewrite Hpinch.
    rewrite right_click_run. cbv zeta. cbn [snd reads self trace latest_now].
    rewrite !last_fire_set_prev_mouse. fold t0. rewrite Hclick.
    cbn [volume_controls gesture_eqb and_then bind ret when snd].
    rewrite paste_run. cbv zeta. cbn [snd reads self trace latest_now]. fold t1.
    rewrite last_fire_fired_other by discriminate.
    rewrite last_fire_set_prev_mouse.
    rewrite <- !app_assoc. reflexivity.
Qed.

End LSign.

(** ** The pointer stays on the screen *)

Lemma target_on_axis (c : Q) (w : Z) :
  0 <= c <= 1 -> (0 <= w)%Z -> (0 <= int (c * inject_Z w) <= w)%Z.
Proof.
  intros [Hlo Hhi] Hw.
  assert (0 <= inject_Z w) as Hq by (unfold Qle; cbn; lia).
  remember (inject_Z w) as q eqn:Eq.
  apply int_upper.
  - apply Qmult_le_0_compat; assumption.
  - rewrite <- Eq. apply Qle_trans with (1 * q);
      [apply Qmult_le_compat_r; assumption | rewrite Qmult_1_l; apply Qle_refl].
Qed.

Lemma smooth_on_axis (target prev w : Z) :
  (0 <= target <= w)%Z -> (0 <= prev <= w)%Z ->
  (0 <= smooth target prev <= w)%Z.
Proof.
  intros Ht Hp. rewrite smooth_quot. split.
  - apply Z.quot_pos; lia.
  - apply Z.quot_le_upper_bound; lia.
Qed.

Lemma keeps_eval_ok {A B : Type} (I : machine -> Prop) (a : A) (k : A -> M B) :
  hoare I (k a) (fun _ => I) -> hoare I (bind (eval (Ok a)) k) (fun _ => I).
Proof. intros Hk m Hm. exact (Hk m Hm). Qed.

Lemma keeps_eval_raise {A B : Type} (I : machine -> Prop) (e : exn)
                       (k : A -> M B) :
  hoare I (bind (eval (Raise e)) k) (fun _ => I).
Proof. intros m Hm. exact Hm. Qed.

Ltac framed_block :=
  let m := fresh "m" in
  let Hw := fresh "Hw" in
  let Hh := fresh "Hh" in
  let Hx := fresh "Hx" in
  let Hy := fresh "Hy" in
  let Htr := fresh "Htr" in
  intros m (Hw & Hh & Hx & Hy & Htr); unfold framed; unfold_monad;
  cbn -[Qabs Qminus Qplus Qmult Qltb Qgeb int];
  split_paths; cbn -[Qabs Qminus Qplus Qmult Qltb Qgeb int];
  try (simpl in *; discriminate);
  (split; [exact Hw|]); (split; [exact Hh|]); (split; [exact Hx|]);
  (split; [exact Hy|]);
  first [ exact Htr
        | apply Forall_app; split; [exact Htr | constructor; [exact I | constructor]] ].

Section OnScreen.

Variable hypot : Q -> Q -> Q.
Variable clock : nat -> Q.
Variables w h : Z.
Hypothesis wide : (0 <= w)%Z.
Hypothesis high : (0 <= h)%Z.

Lemma mouse_move_framed (index_tip : landmark) :
  in_image index_tip ->
  hoare (framed w h) (mouse_move index_tip) (fun _ => framed w h).
Proof.
  intros [Htx Hty] m (Hw & Hh & Hx & Hy & Htr). unfold framed.
  destruct m as [[px py sw sh times mode base] r l tr].
  cbn [self screen_w screen_h prev_mouse_x prev_mouse_y trace] in *.
  subst sw sh.
  pose proof (target_on_axis (x index_tip) w Htx wide) as Tx.
  pose proof (target_on_axis (y index_tip) h Hty high) as Ty.
  unfold_monad.
  destruct px as [px|]; [specialize (Hx px eq_refl); destruct py as [py|]|].
  - specialize (Hy py eq_refl).
    cbn -[Qabs Qminus Qplus Qmult Qltb Qgeb int].
    split; [reflexivity|]. split; [reflexivity|].
    split; [intros p [= <-]; apply (smooth_on_axis _ _ w); assumption|].
    split; [intros p [= <-]; apply (smooth_on_axis _ _ h); assumption|].
    apply Forall_app. split; [exact Htr|]. constructor; [|constructor].
    split; [apply (smooth_on_axis _ _ w) | apply (smooth_on_axis _ _ h)];
      assumption.
  - cbn -[Qabs Qminus Qplus Qmult Qltb Qgeb int].
    split; [reflexivity|]. split; [reflexivity|].
    split; [intros p [= <-]; assumption|].
    split; [intros p [=]|]. exact Htr.
  - cbn -[Qabs Qminus Qplus Qmult Qltb Qgeb int].
    split; [reflexivity|]. split; [reflexivity|].
    split; [intros p [= <-]; apply (smooth_on_axis _ _ w); assumption|].
    split; [intros p [= <-]; apply (smooth_on_axis _ _ h); assumption|].
    apply Forall_app. split; [exact Htr|]. constructor; [|constructor].
    split; [apply (smooth_on_axis _ _ w) | apply (smooth_on_axis _ _ h)];
      assumption.
Qed.

Lemma left_click_framed (index_tip thumb_tip : landmark) :
  hoare (framed w h) (left_click hypot clock index_tip thumb_tip)
        (fun _ => framed w h).
Proof. framed_block. Qed.

Lemma right_click_framed (g : gesture) :
  hoare (framed w h) (right_click clock g) (fun _ => framed w h).
Proof. destruct g; framed_block. Qed.

Lemma volume_controls_framed (g : gesture) :
  hoare (framed w h) (volume_controls clock g) (fun _ => framed w h).
Proof. destruct g; framed_block. Qed.

Lemma keyboard_shortcuts_framed (g : gesture) :
  hoare (framed w h) (keyboard_shortcuts clock g) (fun _ => framed w h).
Proof. destruct g; framed_block. Qed.

Lemma scrolling_framed (g : gesture) (index_tip : landmark) :
  hoare (framed w h) (scrolling clock g index_tip) (fun _ => framed w h).
Proof. destruct g; framed_block. Qed.

Lemma loop_body_framed (f : frame) :
  tip_in_image f ->
  hoare (framed w h) (loop_body hypot clock f) (fun _ => framed w h).
Proof.
  intros Hf. destruct f as [lm|]; [|apply keeps_ret].
  unfold loop_body.
  apply keeps_bind; [apply keeps_eval|]. intros g.
  unfold getitem at 1.
  destruct (lm !! 8%nat) as [index_tip|] eqn:H8;
    [apply keeps_eval_ok | apply keeps_eval_raise].
  specialize (Hf lm index_tip eq_refl H8).
  apply keeps_bind; [apply keeps_eval|]. intros thumb_tip.
  apply keeps_bind; [apply mouse_move_framed; exact Hf|]. intros _.
  apply keeps_bind; [apply left_click_framed|]. intros _.
  apply keeps_bind; [apply right_click_framed|]. intros _.
  apply keeps_bind; [apply volume_controls_framed|]. intros _.
  apply keeps_bind; [apply keyboard_shortcuts_framed|]. intros _.
  apply scrolling_framed.
Qed.

Lemma while_running_framed (frames : list frame) :
  Forall tip_in_image frames ->
  hoare (framed w h) (while_running hypot clock frames) (fun _ => framed w h).
Proof.
  induction frames as [|f rest IH]; intros Hall; [apply keeps_ret|].
  cbn [while_running]. inversion Hall as [|? ? Hf Hrest]. subst.
  apply keeps_bind; [apply loop_body_framed; exact Hf|].
  intros _. apply IH. exact Hrest.
Qed.

End OnScreen.

(** X10: the pointer stays on the screen.  On a screen of [w] x [h]
    pixels, as long as every hand's index tip lies inside the image
    (normalised coordinates in [0, 1]), every pointer move of a run from
    the freshly constructed application goes to a position within
    [0, w] x [0, h]: truncation and smoothing never leave the rectangle.
    (The right and bottom edges [w] and [h] themselves are reached when a
    coordinate is exactly 1.) *)
Theorem pointer_stays_on_screen (hypot : Q -> Q -> Q) (clock : nat -> Q)
    (w h : Z) (frames : list frame) (e : emission) (px py : Z) :
  (0 <= w)%Z -> (0 <= h)%Z -> Forall tip_in_image frames ->
  In e (trace (after (while_running hypot clock frames) (boot w h))) ->
  what e = moveTo px py ->
  (0 <= px <= w)%Z /\ (0 <= py <= h)%Z.
Proof.
  intros Hw Hh Hframes Hin He.
  destruct (while_running_framed hypot clock w h Hw Hh frames Hframes (boot w h))
    as (_ & _ & _ & _ & Htr).
  - unfold framed, boot, start. cbn.
    repeat split; try discriminate. constructor.
  - rewrite Forall_forall in Htr. specialize (Htr e).
    rewrite list_elem_of_In in Htr. specialize (Htr Hin).
    rewrite He in Htr. exact Htr.
Qed.

(** ** A palm held still *)

Section HeldPalm.

Variable hypot : Q -> Q -> Q.
Variable clock : nat -> Q.




End HeldPalm.

(** * The further properties on concrete inputs *)

Lemma unreadable_level_counts_as_zero_witness :
  master_level
    (VolumeController_volume_up {| volume := Some unreadable_endpoint |}
       default_step (Speaker 0.7 false))
  == 0.05.
Proof.
  destruct (unreadable_level_counts_as_zero unreadable_endpoint
              (Speaker 0.7 false) (Speaker 0.7 false) eq_refl)
    as [_ [[l [Hl Hup]] _]].
  rewrite Hup. exact Hl.
Defined.

Lemma volume_steps_saturate_witness :
  master_level (VolumeController_volume_up working 0.05 (Speaker 0.98 false)) == 1 /\
  master_level (VolumeController_volume_down working 0.05 (Speaker 0.98 false))
  == 0.98 - 0.05.
Proof.
  assert (0 <= master_level (Speaker 0.98 false) <= 1) as Hrange
    by (split; discriminate).
  assert (0 <= 0.05) as Hstep by discriminate.
  destruct (volume_steps_saturate (Speaker 0.98 false) 0.05 Hrange Hstep)
    as [_ [Hup [Hdown _]]].
  split; [apply Hup | apply Hdown]; discriminate.
Defined.

(** A fist held at the image's corner, then a frame with no hand: the
    pointer is moved once and the volume comes down once. *)
Example volume_session :
  map what (trace (after (while_running hypot_micro clock_500ms
                            [Some (fist_pointing origin); None]) (boot 1920 1080)))
  = [moveTo 0 0; volume_down].
Proof. vm_compute. reflexivity. Qed.

Lemma run_keeps_volume_in_range_witness :
  0 <= master_level
         (perform_all working
            (trace (after (while_running hypot_micro clock_500ms
                             [Some (fist_pointing origin); None]) (boot 1920 1080)))
            (Speaker 0.02 true)) <= 1.
Proof.
  apply (run_keeps_volume_in_range _ (Speaker 0.02 true)).
  split; discriminate.
Defined.


Lemma label_conditions_witness :
  length peace_hand = 21%nat /\
  exists s g,
    finger_states hypot_micro peace_hand = Some s /\
    classify hypot_micro peace_hand = Ok g /\
    gesture_eqb g PEACE = rule_peace s && negb (rule_ok_sign s).
Proof.
  split; [reflexivity|].
  destruct (label_conditions hypot_micro peace_hand eq_refl)
    as [s [g [Hs [Hg [_ [_ [Hpeace _]]]]]]].
  exists s, g. auto.
Defined.

Lemma frame_dispatch_table_witness :
  classify hypot_micro l_hand = Ok L_SIGN /\
  exists more,
    trace (after (loop_body hypot_micro clock_10ms (Some l_hand)) (boot 1920 1080))
    = trace (boot 1920 1080) ++ more /\
    Forall (fun e => permitted L_SIGN (what e) = true) more.
Proof.
  split; [reflexivity|].
  apply (frame_dispatch_table hypot_micro clock_10ms l_hand L_SIGN). reflexivity.
Defined.

Lemma no_scroll_outside_scroll_mode_witness :
  classify hypot_micro open_hand = Ok OPEN_PALM /\
  exists more,
    trace (after (loop_body hypot_micro clock_10ms (Some open_hand))
                 (boot 1920 1080))
    = trace (boot 1920 1080) ++ more /\
    Forall (fun e => forall n, what e <> scroll n) more.
Proof.
  split; [reflexivity|].
  apply (no_scroll_outside_scroll_mode hypot_micro clock_10ms (Some open_hand)).
  reflexivity.
Defined.

Lemma pointer_stays_on_screen_witness :
  In (Emission None (moveTo 768 324))
     (trace (after (while_running hypot_micro clock_10ms [Some open_hand])
                   (boot 1920 1080))) /\
  (0 <= 768 <= 1920)%Z /\ (0 <= 324 <= 1080)%Z.
Proof.
  split; [vm_compute; left; reflexivity|].
  apply (pointer_stays_on_screen hypot_micro clock_10ms 1920 1080
           [Some open_hand] (Emission None (moveTo 768 324)) 768 324).
  - lia.
  - lia.
  - constructor; [|constructor].
    intros lm index_tip [= <-] [= <-]. unfold in_image. cbn [x y].
    repeat split; discriminate.
  - vm_compute. left. reflexivity.
  - reflexivity.
Defined.

Lemma loop_never_raises_type_error_witness :
  (while_running hypot_micro clock_10ms [Some open_hand; None; Some fist_hand]
     (boot 1920 1080)).1 = Ok tt.
Proof.
  apply (loop_never_raises_type_error hypot_micro clock_10ms
           [Some open_hand; None; Some fist_hand] (boot 1920 1080) eq_refl).
  repeat constructor; intros lm [= <-]; cbn; lia.
Defined.

Lemma short_hand_ends_the_loop_witness :
  length short_hand = 20%nat /\
  _loop hypot_micro clock_10ms [Some open_hand; Some short_hand; Some fist_hand]
        (boot 1920 1080)
  = (Raise IndexError,
     after (while_running hypot_micro clock_10ms [Some open_hand])
           (boot 1920 1080)).
Proof.
  split; [reflexivity|].
  apply (short_hand_ends_the_loop hypot_micro clock_10ms [Some open_hand]
           [Some fist_hand] short_hand (boot 1920 1080)).
  - cbn. lia.
  - vm_compute. reflexivity.
Defined.

Lemma session_end_resets_pointer_only_witness :
  prev_mouse_x (self (after (_loop hypot_micro clock_10ms [Some open_hand])
                            (boot 1920 1080))) = None /\
  scroll_mode (self (after (_loop hypot_micro clock_10ms [Some open_hand])
                           (boot 1920 1080))) = true.
Proof.
  destruct (session_end_resets_pointer_only hypot_micro clock_10ms
              [Some open_hand] (boot 1920 1080) fist_hand FIST
              (Landmark 0.4 0.55) eq_refl eq_refl eq_refl eq_refl)
    as [_ [Hx [_ [Hmode _]]]].
  split; [exact Hx|]. rewrite Hmode. vm_compute. reflexivity.
Defined.

Lemma cooldown_clocks_never_go_back_witness :
  last_fire "click" (self (boot 1920 1080))
  <= last_fire "click"
       (self (after (while_running hypot_micro clock_10ms [Some ok_hand])
                    (boot 1920 1080))).
Proof.
  exact (cooldown_clocks_never_go_back hypot_micro clock_10ms [Some ok_hand]
           (boot 1920 1080) "click").
Defined.

(** The L sign with a pinch on a clock of 10 ms readings: the left click,
    no right click, then the paste. *)
Example l_pinch_frame :
  classify hypot_micro l_pinch_hand = Ok L_SIGN /\
  map what (trace (after (loop_body hypot_micro clock_10ms (Some l_pinch_hand))
                         (boot 1920 1080)))
  = [moveTo 768 363; click; hotkey "ctrl" "v"].
Proof. vm_compute. split; reflexivity. Qed.

Lemma l_sign_pinch_takes_the_click_witness :
  classify hypot_micro l_pinch_hand = Ok L_SIGN /\
  (loop_body hypot_micro clock_10ms (Some l_pinch_hand) (boot 1920 1080)).1 = Ok tt.
Proof.
  split; [reflexivity|].
  apply (l_sign_pinch_takes_the_click hypot_micro clock_10ms l_pinch_hand
           (Landmark 0.4 0.337) (Landmark 0.4 0.3) (boot 1920 1080)
           eq_refl eq_refl eq_refl eq_refl).
  apply Qle_bool_iff. reflexivity.
Defined.

